(** * Discord Export Visualizer: the extraction layer

    A shallow embedding of [src/modules/messages.js] and
    [src/modules/account.js]: the archive accessor (JSZip), the channel
    directory scanner, the channel metadata resolver, the message log
    parser and the account extractor, followed by the properties of the
    specification that concern them.

    Conventions.
    - A JavaScript string is a Rocq [string]; a character stands for one
      code unit in the range U+0000..U+00FF.
    - A JavaScript value is a [Js.value].  Numbers are the rationals: every
      finite double is one, and the code only compares numbers with 0, 1
      and 3.
    - An object is the list of its own properties in insertion order; its
      prototype is [Object.prototype], whose one setter, [__proto__], is
      accounted for where a property is assigned.
    - A promise that is fulfilled with [x] is [Js.Ok x]; a promise that is
      rejected (or a [throw]) is [Js.Throw e].  Where a function leaves
      work suspended at an [await] when it returns ([parseApplications]),
      the suspended work is part of its result and a step relation
      resumes it.
    - [JSON.parse] belongs to the JavaScript runtime and is a parameter
      [JSON_parse] of the development: [None] is a [SyntaxError]. *)

From Stdlib Require Import String Ascii List Bool Arith ZArith QArith Lia.
From Stdlib Require Import Sorted Permutation.
Import ListNotations.

Close Scope Q_scope.
Local Open Scope list_scope.
Local Open Scope string_scope.

(* ===================================================================== *)
(** ** The fragment of JavaScript used by the two modules                *)
(* ===================================================================== *)

Module Js.

#[local] Set Warnings "-register-all".

Inductive value : Type :=
| VUndef
| VNull
| VBool (b : bool)
| VNum (q : Q)
| VStr (s : string)
| VArr (items : list value)
| VObj (props : list (string * value)).

Inductive error : Type :=
| FileNotFound (path : string)   (* new Error(`File not found: ${path}`) *)
| ReadFailure                    (* file.async(...) rejected *)
| SyntaxError                    (* JSON.parse *)
| TypeError.                     (* property of null/undefined, call of a non-function *)

Inductive result (A : Type) : Type :=
| Ok (a : A)
| Throw (e : error).
Arguments Ok {A} a.
Arguments Throw {A} e.

Definition bind {A B : Type} (c : result A) (k : A -> result B) : result B :=
  match c with
  | Ok a => k a
  | Throw e => Throw e
  end.

(** [try { c } catch (_) { h }] *)
Definition try_catch {A : Type} (c : result A) (h : A) : A :=
  match c with
  | Ok a => a
  | Throw _ => h
  end.

Fixpoint mapM {A B : Type} (f : A -> result B) (l : list A) : result (list B) :=
  match l with
  | [] => Ok []
  | a :: t => bind (f a) (fun b => bind (mapM f t) (fun bs => Ok (b :: bs)))
  end.

(** ToBoolean *)
Definition truthy (v : value) : bool :=
  match v with
  | VUndef | VNull => false
  | VBool b => b
  | VNum q => negb (Qeq_bool q 0)
  | VStr s => negb (s =? "")
  | VArr _ | VObj _ => true
  end.

Definition nullish (v : value) : bool :=
  match v with
  | VUndef | VNull => true
  | _ => false
  end.

(** [v === n] for a number literal [n] *)
Definition strict_eq_num (v : value) (n : Q) : bool :=
  match v with
  | VNum q => Qeq_bool q n
  | _ => false
  end.

Definition num_of_nat (n : nat) : value := VNum (inject_Z (Z.of_nat n)).

(** Own properties of an object, in insertion order. *)
Fixpoint lookup (k : string) (props : list (string * value)) : option value :=
  match props with
  | [] => None
  | (k', v) :: t => if k' =? k then Some v else lookup k t
  end.

(** Defining the own property [k]: an existing property keeps its place,
    a new one is added last.  (The order in which an object lists its
    properties, names that are array indexes first, is read nowhere.) *)
Fixpoint obj_put (k : string) (v : value) (props : list (string * value))
  : list (string * value) :=
  match props with
  | [] => [(k, v)]
  | (k', v') :: t => if k' =? k then (k, v) :: t else (k', v') :: obj_put k v t
  end.

(** [obj[k] = v] on an object literal, for a value [v] that is a string
    or [undefined] (what [split] and an index past its end give).  The
    key [__proto__] is no property of the object: the assignment reaches
    the setter that [Object.prototype] defines, which ignores a value
    that is neither an object nor [null].  Every other key becomes an own
    property (a method name such as [toString] too, which the own
    property then hides). *)
Definition obj_set (k : string) (v : value) (props : list (string * value))
  : list (string * value) :=
  if k =? "__proto__" then props else obj_put k v props.

Definition or_undef (o : option value) : value :=
  match o with
  | Some v => v
  | None => VUndef
  end.

(** [v.k] for an identifier [k] that no prototype defines (all the
    property names of the two modules are such, [length] apart, which
    arrays and strings define). *)
Definition get (v : value) (k : string) : result value :=
  match v with
  | VUndef | VNull => Throw TypeError
  | VObj props => Ok (or_undef (lookup k props))
  | VArr items => Ok (if k =? "length" then num_of_nat (List.length items) else VUndef)
  | VStr s => Ok (if k =? "length" then num_of_nat (String.length s) else VUndef)
  | VBool _ | VNum _ => Ok VUndef
  end.

(** [v[0]] *)
Definition get0 (v : value) : result value :=
  match v with
  | VUndef | VNull => Throw TypeError
  | VObj props => Ok (or_undef (lookup "0" props))
  | VArr items => Ok (nth 0 items VUndef)
  | VStr s => Ok (match s with
                  | EmptyString => VUndef
                  | String c _ => VStr (String c EmptyString)
                  end)
  | VBool _ | VNum _ => Ok VUndef
  end.

(** [v?.k] and [v?.[0]] *)
Definition get_opt (v : value) (k : string) : result value :=
  if nullish v then Ok VUndef else get v k.

Definition get0_opt (v : value) : result value :=
  if nullish v then Ok VUndef else get0 v.

(** [a || b], [a && b], [a ?? b]: the right operand is evaluated only
    when the left one does not decide. *)
Definition or_else (a b : result value) : result value :=
  bind a (fun x => if truthy x then Ok x else b).

Definition and_then (a b : result value) : result value :=
  bind a (fun x => if truthy x then b else Ok x).

Definition coalesce (a b : result value) : result value :=
  bind a (fun x => if nullish x then b else Ok x).

(** *** Strings *)

Definition nl : ascii := ascii_of_nat 10.
Definition cr : ascii := ascii_of_nat 13.

(** White space and line terminators of [String.prototype.trim] below
    U+0100: TAB, LF, VT, FF, CR, SP, NBSP. *)
Definition is_space (c : ascii) : bool :=
  let n := nat_of_ascii c in
  (Nat.leb 9 n && Nat.leb n 13) || Nat.eqb n 32 || Nat.eqb n 160.

Fixpoint trimStart (s : string) : string :=
  match s with
  | EmptyString => EmptyString
  | String c s' => if is_space c then trimStart s' else s
  end.

Fixpoint trimEnd (s : string) : string :=
  match s with
  | EmptyString => EmptyString
  | String c s' =>
      match trimEnd s' with
      | EmptyString => if is_space c then EmptyString else String c EmptyString
      | t => String c t
      end
  end.

Definition trim (s : string) : string := trimEnd (trimStart s).

Definition cons_head (c : ascii) (l : list string) : list string :=
  match l with
  | [] => [String c EmptyString]
  | h :: t => String c h :: t
  end.

(** [s.split(sep)] for a one-character separator. *)
Fixpoint split (sep : ascii) (s : string) : list string :=
  match s with
  | EmptyString => [EmptyString]
  | String c s' =>
      if Ascii.eqb c sep then EmptyString :: split sep s'
      else cons_head c (split sep s')
  end.

(** [s.split(/\r?\n/)] *)
Fixpoint split_lines (s : string) : list string :=
  match s with
  | EmptyString => [EmptyString]
  | String c s' =>
      if Ascii.eqb c nl then EmptyString :: split_lines s'
      else if Ascii.eqb c cr then
        match s' with
        | String c' _ =>
            if Ascii.eqb c' nl then split_lines s' else cons_head c (split_lines s')
        | EmptyString => cons_head c (split_lines s')
        end
      else cons_head c (split_lines s')
  end.

Definition startsWith (s p : string) : bool := String.prefix p s.

Definition endsWith (s p : string) : bool :=
  Nat.leb (String.length p) (String.length s) &&
  (substring (String.length s - String.length p)%nat (String.length p) s =? p).

(** [s.slice(n)] for [0 <= n] *)
Definition slice_from (n : nat) (s : string) : string :=
  substring n (String.length s - n)%nat s.

(** [s.toLowerCase()] on code units below U+0100: the letters A-Z and the
    capital letters U+00C0-U+00DE, the multiplication sign U+00D7 apart. *)
Definition lower_char (c : ascii) : ascii :=
  let n := nat_of_ascii c in
  if (Nat.leb 65 n && Nat.leb n 90) ||
     (Nat.leb 192 n && Nat.leb n 222 && negb (Nat.eqb n 215))
  then ascii_of_nat (n + 32) else c.

Fixpoint toLowerCase (s : string) : string :=
  match s with
  | EmptyString => EmptyString
  | String c s' => String (lower_char c) (toLowerCase s')
  end.

(** [arr.sort()] on an array of strings: ascending by code units.  The
    engine is free in its algorithm, not in the result. *)
Fixpoint sort_insert (x : string) (l : list string) : list string :=
  match l with
  | [] => [x]
  | y :: t => if String.leb x y then x :: y :: t else y :: sort_insert x t
  end.

Definition sort (l : list string) : list string :=
  fold_right sort_insert [] l.

(** [v === s] for a string literal [s] *)
Definition strict_eq_str (v : value) (s : string) : bool :=
  match v with
  | VStr t => t =? s
  | _ => false
  end.

(** [a.indexOf(v)], [None] for -1 *)
Fixpoint indexOf (v : string) (a : list string) : option nat :=
  match a with
  | [] => None
  | x :: t =>
      if x =? v then Some 0
      else match indexOf v t with
           | Some i => Some (S i)
           | None => None
           end
  end.

(** [a.filter((v, i) => f(v, i))], from index [i] on. *)
Fixpoint filter_indexed (f : string -> nat -> bool) (i : nat) (a : list string)
  : list string :=
  match a with
  | [] => []
  | v :: t =>
      if f v i then v :: filter_indexed f (S i) t else filter_indexed f (S i) t
  end.

(** An entry of the list that a [test] function returns. *)
Record test_result : Type := mkTestResult {
  test_name : string;
  passed : bool
}.

End Js.

Notation "x <- c ;; k" := (Js.bind c (fun x => k))
  (at level 61, c at next level, right associativity).

(* ===================================================================== *)
(** ** The archive accessor: a JSZip instance                            *)
(* ===================================================================== *)

Module Zip.

(** One entry of [zip.files].  [content] is what [async('string')]
    resolves to, [None] when it rejects. *)
Record entry : Type := mkEntry {
  name : string;
  dir : bool;
  content : option string
}.

(** [zip.files] in enumeration order. *)
Definition archive : Type := list entry.

(** [zip.file(path)]: the entry of that name unless it is a folder. *)
Definition file (zip : archive) (path : string) : option entry :=
  match find (fun e => name e =? path) zip with
  | Some e => if dir e then None else Some e
  | None => None
  end.

(** [file.async('string')] *)
Definition async_string (e : entry) : Js.result string :=
  match content e with
  | Some text => Js.Ok text
  | None => Js.Throw Js.ReadFailure
  end.

(** [zip.folder(path)] is never null: it is a view of the same archive
    with root [path ++ "/"]. *)
Definition folder (path : string) : string := path ++ "/".

(** The arguments [(relativePath, file)] that [forEach] passes to its
    callback, in order, for a view with root [root] ([""] for the archive
    itself): the entries under the root whose relative path is not empty. *)
Definition forEach_args (root : string) (zip : archive) : list (string * entry) :=
  flat_map
    (fun e =>
       let relativePath := Js.slice_from (String.length root) (name e) in
       if negb (relativePath =? "") && Js.startsWith (name e) root
       then [(relativePath, e)] else [])
    zip.

End Zip.

(* ===================================================================== *)
(** ** src/modules/messages.js                                           *)
(* ===================================================================== *)

Module Messages.

Import Js.

Record message : Type := mkMessage {
  msg_id : value;
  msg_timestamp : value;
  msg_content : value;
  msg_attachments : value
}.

Record channel_info : Type := mkChannelInfo {
  ch_id : value;
  ch_name : value;
  ch_type : value;
  ch_is_dm : bool;
  ch_guild : value
}.

(** [values[i]] on the array of strings that [split] returns. *)
Definition at_index (values : list string) (i : nat) : value :=
  match nth_error values i with
  | Some s => VStr s
  | None => VUndef
  end.

(** [headers.forEach((h, i) => obj[h] = values[i])], from index [i] on. *)
Fixpoint assign_columns (headers : list string) (i : nat) (values : list string)
         (obj : list (string * value)) : list (string * value) :=
  match headers with
  | [] => obj
  | h :: t => assign_columns t (S i) values (obj_set h (at_index values i) obj)
  end.

Definition comma : ascii := ascii_of_nat 44.

Definition parseCsv (text : string) : list value :=
  let lines := split_lines (trim text) in
  if Nat.eqb (List.length lines) 0 then []
  else
    let headers := split comma (hd EmptyString lines) in
    map (fun line =>
           let values := split comma line in
           VObj (assign_columns headers 0 values []))
        (tl lines).

(** [data.map(f)]: only an array has a [map] to call. *)
Definition array_map {A : Type} (data : value) (f : value -> result A)
  : result (list A) :=
  match data with
  | VArr items => mapM f items
  | _ => Throw TypeError
  end.

(** The second path segment when [relativePath] matches
    [/^Messages\/([^/]+)\/(?:messages\.json|messages\.csv|channel\.json)$/]. *)
Fixpoint strip_prefix (p s : string) : option string :=
  match p with
  | EmptyString => Some s
  | String a p' =>
      match s with
      | EmptyString => None
      | String b s' => if Ascii.eqb a b then strip_prefix p' s' else None
      end
  end.

Definition slash : ascii := ascii_of_nat 47.

(** The text before the first [/] and the text after it. *)
Fixpoint break_slash (s : string) : option (string * string) :=
  match s with
  | EmptyString => None
  | String c s' =>
      if Ascii.eqb c slash then Some (EmptyString, s')
      else match break_slash s' with
           | Some (d, rest) => Some (String c d, rest)
           | None => None
           end
  end.

Definition log_names : list string :=
  ["messages.json"; "messages.csv"; "channel.json"].

Definition match_channel (relativePath : string) : option string :=
  match strip_prefix "Messages/" relativePath with
  | None => None
  | Some rest =>
      match break_slash rest with
      | None => None
      | Some (d, f) =>
          if negb (d =? "") && existsb (String.eqb f) log_names
          then Some d else None
      end
  end.

(** [dirs.add(d)] on a [Set], kept in insertion order. *)
Definition set_add (d : string) (dirs : list string) : list string :=
  if existsb (String.eqb d) dirs then dirs else (dirs ++ [d])%list.

(** The callback of [zip.forEach]. *)
Definition scan (dirs : list string) (arg : string * Zip.entry) : list string :=
  match match_channel (fst arg) with
  | Some d => set_add d dirs
  | None => dirs
  end.

Definition listChannelDirs (zip : Zip.archive) : list string :=
  fold_left scan (Zip.forEach_args "" zip) [].

Section WithParser.

Variable JSON_parse : string -> option value.

Definition readJson (zip : Zip.archive) (path : string) : result value :=
  match Zip.file zip path with
  | None => Throw (FileNotFound path)
  | Some f =>
      text <- Zip.async_string f ;;
      match JSON_parse text with
      | Some v => Ok v
      | None => Throw SyntaxError
      end
  end.

(** The callback of [data.map] on the records of a JSON log. *)
Definition json_message (m : value) : result message :=
  i <- coalesce (coalesce (get m "ID") (get m "id")) (Ok (VStr "")) ;;
  t <- coalesce (coalesce (get m "Timestamp") (get m "timestamp")) (Ok (VStr "")) ;;
  c <- coalesce (coalesce (get m "Contents") (get m "content")) (Ok (VStr "")) ;;
  a <- coalesce (coalesce (get m "Attachments") (get m "attachments")) (Ok (VStr "")) ;;
  Ok (mkMessage i t c a).

(** The callback of [parsed.map] on the records of a CSV log. *)
Definition csv_message (m : value) : result message :=
  i <- get m "ID" ;;
  t <- get m "Timestamp" ;;
  c <- get m "Contents" ;;
  a <- get m "Attachments" ;;
  Ok (mkMessage i t c a).

Definition readMessages (zip : Zip.archive) (dir : string)
  : result (list message) :=
  let jsonPath := "Messages/" ++ dir ++ "/messages.json" in
  let csvPath := "Messages/" ++ dir ++ "/messages.csv" in
  match Zip.file zip jsonPath with
  | Some _ =>
      data <- readJson zip jsonPath ;;
      array_map data json_message
  | None =>
      match Zip.file zip csvPath with
      | Some f =>
          text <- Zip.async_string f ;;
          let parsed := parseCsv text in
          mapM csv_message parsed
      | None => Ok []
      end
  end.

Definition fallback (dir : string) : channel_info :=
  {| ch_id := VStr dir;
     ch_name := VStr ("DM " ++ dir);
     ch_type := VStr "";
     ch_is_dm := true;
     ch_guild := VNull |}.

(** [const isDM = !ch.guild_id && (ch.type === 1 || ch.type === 3 ||
    ch.recipients?.length)] *)
Definition isDM (ch : value) : result value :=
  and_then
    (g <- get ch "guild_id" ;; Ok (VBool (negb (truthy g))))
    (or_else
       (or_else
          (t <- get ch "type" ;; Ok (VBool (strict_eq_num t 1)))
          (t <- get ch "type" ;; Ok (VBool (strict_eq_num t 3))))
       (r <- get ch "recipients" ;; get_opt r "length")).

(** The body of the [try] block once [ch] is read. *)
Definition channelInfo (ch : value) (dir : string) : result channel_info :=
  isDM <- isDM ch ;;
  i <- get ch "id" ;;
  n <- or_else
         (or_else
            (or_else
               (get ch "name")
               (r <- get ch "recipients" ;; e <- get0_opt r ;; get_opt e "username"))
            (r <- get ch "recipient" ;; get_opt r "username"))
         (Ok (VStr ("DM " ++ dir))) ;;
  t <- get ch "type" ;;
  g <- coalesce (g <- get ch "guild" ;; get_opt g "name") (Ok VNull) ;;
  Ok {| ch_id := i;
        ch_name := n;
        ch_type := t;
        ch_is_dm := truthy isDM;
        ch_guild := g |}.

Definition readChannelInfo (zip : Zip.archive) (dir : string)
  : result channel_info :=
  let path := "Messages/" ++ dir ++ "/channel.json" in
  Ok (try_catch (ch <- readJson zip path ;; channelInfo ch dir)
                (fallback dir)).

(** [test]: the check of [parseCsv] on its sample, then [readMessages] on
    the first channel in sorted order when there is one. *)
Definition csvSample : string :=
  "ID,Timestamp,Contents,Attachments" ++ String nl "1,2021-01-01,Hello," ++
  String nl "2,2021-01-02,World,link".

Definition csvOk : result bool :=
  let parsed := parseCsv csvSample in
  if Nat.eqb (List.length parsed) 2 then
    i <- get (nth 0 parsed VUndef) "ID" ;;
    if strict_eq_str i "1" then
      c <- get (nth 1 parsed VUndef) "Contents" ;;
      Ok (strict_eq_str c "World")
    else Ok false
  else Ok false.

Definition test (zip : Zip.archive) : result (list test_result) :=
  ok <- csvOk ;;
  let results := [mkTestResult "parseCsv simple test" ok] in
  let dirs := sort (listChannelDirs zip) in
  if Nat.eqb (List.length dirs) 0 then Ok results
  else
    let dir := hd EmptyString dirs in
    Ok (results ++
        [mkTestResult "readMessages returns array"
           match readMessages zip dir with
           | Ok _ => true          (* Array.isArray(msgs) *)
           | Throw _ => false
           end])%list.

End WithParser.

(** [listChannelDirs(zip).sort()]: the order in which [render] and [test]
    take the channels. *)
Definition sortedDirs (zip : Zip.archive) : list string :=
  sort (listChannelDirs zip).

(** [render], the loop over the channels (lines 136 to 233): an item of
    the channel list has a text and is put in a list.

    The text is the trimmed name, or [`DM ${info.id}`], kept here as the
    identifier it is made from.  The list is the one of the direct
    messages, which is part of the page from the start, or the one that
    [guildMap] holds for the key [info.guild || 'Server']. *)
Inductive label : Type :=
| Name (text : string)
| Synthetic (id : value).

Inductive bucket : Type :=
| DirectMessages
| Guild (key : value).

(** Whether a value of a JSON text can be made a string, as a template
    does.  An object is converted by its [toString]: a record with a
    field of that name, which holds no function, has none to call, and
    its [valueOf] gives no primitive, so the conversion throws.  An
    array joins the conversions of its elements, null counting as the
    empty string. *)
Fixpoint converts (v : value) : bool :=
  match v with
  | VArr items => forallb (fun x => nullish x || converts x) items
  | VObj props =>
      match lookup "toString" props with
      | Some _ => false
      | None => true
      end
  | _ => true
  end.

(** [`DM ${id}`] *)
Definition synthetic (id : value) : result label :=
  if converts id then Ok (Synthetic id) else Throw TypeError.

(** [info.name?.trim() || `DM ${info.id}`]: only a string has a [trim]
    to call. *)
Definition channelName (info : channel_info) : result label :=
  match ch_name info with
  | VUndef | VNull => synthetic (ch_id info)
  | VStr s =>
      let trimmed := trim s in
      if truthy (VStr trimmed) then Ok (Name trimmed) else synthetic (ch_id info)
  | _ => Throw TypeError
  end.

(** The body of the loop from line 139 on.  [is_dm] is a boolean, so of
    the three comparisons [=== true], [=== 1], [=== 2] the first
    decides. *)
Definition listItem (info : channel_info) : result (label * bucket) :=
  channelName <- channelName info ;;
  Ok (channelName,
      if ch_is_dm info then DirectMessages
      else Guild (if truthy (ch_guild info) then ch_guild info else VStr "Server")).

Section Listing.

Variable JSON_parse : string -> option value.

Definition channelItem (zip : Zip.archive) (dir : string)
  : result (label * bucket) :=
  info <- readChannelInfo JSON_parse zip dir ;;
  listItem info.

(** The loop: the items put in their lists, in order, and the error that
    ended the loop, and [render] with it, if there was one. *)
Fixpoint channelItems (zip : Zip.archive) (dirs : list string)
  : list (string * (label * bucket)) * option error :=
  match dirs with
  | [] => ([], None)
  | dir :: rest =>
      match channelItem zip dir with
      | Throw e => ([], Some e)
      | Ok item =>
          let (items, failure) := channelItems zip rest in
          ((dir, item) :: items, failure)
      end
  end.

Definition renderChannels (zip : Zip.archive)
  : list (string * (label * bucket)) * option error :=
  channelItems zip (sortedDirs zip).

End Listing.

(** [render]: the attachments cell of a message row, a link when
    [m.attachments && m.attachments.startsWith('http')], a text
    otherwise.  Only a string has a [startsWith] to call. *)
Inductive cell : Type :=
| Link (href : string)
| Text (content : value).

Definition attachmentCell (attachments : value) : result cell :=
  if truthy attachments then
    match attachments with
    | VStr s => if startsWith s "http" then Ok (Link s) else Ok (Text attachments)
    | _ => Throw TypeError
    end
  else Ok (Text attachments).

End Messages.

(* ===================================================================== *)
(** ** src/modules/account.js                                            *)
(* ===================================================================== *)

Module Account.

Import Js.

Record account : Type := mkAccount {
  id : value;
  username : value;
  discriminator : value;
  globalName : value;
  email : value;
  verified : value;
  phone : value;
  premiumUntil : value;
  flags : value
}.

Record application : Type := mkApplication {
  app_id : value;
  app_name : value;
  app_description : value
}.

(** What one call of [parseApplications] leaves behind: the array
    [result], which the caller and the callbacks share, and the callbacks
    of [forEach] that are suspended at their [await], each with the path
    it is reading. *)
Record run : Type := mkRun {
  result_array : list application;
  suspended : list string
}.

(** The root of [zip.folder('Account/applications')]. *)
Definition apps_root : string := Zip.folder "Account/applications".

(** The entries for which the callback of [forEach] starts a read. *)
Definition is_application_file (arg : string * Zip.entry) : bool :=
  negb (Zip.dir (snd arg)) && endsWith (fst arg) "application.json".

Section WithParser.

Variable JSON_parse : string -> option value.

Definition readJson (zip : Zip.archive) (path : string) : result value :=
  match Zip.file zip path with
  | None => Throw (FileNotFound path)
  | Some f =>
      text <- Zip.async_string f ;;
      match JSON_parse text with
      | Some v => Ok v
      | None => Throw SyntaxError
      end
  end.

Definition parseUser (zip : Zip.archive) : result account :=
  user <- readJson zip "Account/user.json" ;;
  i <- get user "id" ;;
  u <- get user "username" ;;
  d <- get user "discriminator" ;;
  g <- or_else (get user "global_name") (Ok VNull) ;;
  e <- get user "email" ;;
  v <- get user "verified" ;;
  p <- get user "phone" ;;
  pu <- get user "premium_until" ;;
  f <- or_else (get user "flags") (Ok (VArr [])) ;;
  Ok (mkAccount i u d g e v p pu f).

(** The callback of [appsFolder.forEach], from its call to its
    [await]: an [async] function returns to its caller at the first
    [await], so nothing is pushed during the enumeration. *)
Definition callback_call (relativePath : string) (file : Zip.entry) (r : run)
  : run :=
  if negb (Zip.dir file) && endsWith relativePath "application.json"
  then mkRun (result_array r)
             (suspended r ++ [("Account/applications/" ++ relativePath)%string])%list
  else r.

(** The rest of the callback, run when the read of [path] settles: a
    rejected read or a [TypeError] rejects the promise of this callback
    alone, which nobody holds. *)
Definition read_application (zip : Zip.archive) (path : string)
  : result application :=
  json <- readJson zip path ;;
  i <- get json "id" ;;
  n <- get json "name" ;;
  d <- get json "description" ;;
  Ok (mkApplication i n d).

Definition callback_resume (zip : Zip.archive) (path : string) (r : run) : run :=
  match read_application zip path with
  | Ok app => mkRun (result_array r ++ [app])%list (suspended r)
  | Throw _ => r
  end.

(** What a run still owes: every record already pushed stays, and the
    record of every suspended callback whose read succeeds is pushed
    once the callback resumes. *)
Definition owes (zip : Zip.archive) (r : run) (app : application) : Prop :=
  In app (result_array r) \/
  exists path, In path (suspended r) /\ read_application zip path = Ok app.

(** The enumeration, then [return result]: the value handed to the
    caller is the array as it is at that moment.  (The guard
    [if (!appsFolder) return []] never fires, [zip.folder] returning a
    view in every case.) *)
Definition enumerate (zip : Zip.archive) : run :=
  let appsFolder := Zip.folder "Account/applications" in
  fold_left (fun r arg => callback_call (fst arg) (snd arg) r)
            (Zip.forEach_args appsFolder zip)
            (mkRun [] []).

Definition parseApplications (zip : Zip.archive)
  : result (list application) * run :=
  let r := enumerate zip in
  (Ok (result_array r), r).

(** One suspended callback is resumed; the archive reader decides
    which. *)
Inductive step (zip : Zip.archive) : run -> run -> Prop :=
| step_resume : forall r before path after,
    suspended r = (before ++ path :: after)%list ->
    step zip r
         (callback_resume zip path (mkRun (result_array r) (before ++ after)%list)).

Inductive steps (zip : Zip.archive) : run -> run -> Prop :=
| steps_refl : forall r, steps zip r r
| steps_cons : forall r1 r2 r3, step zip r1 r2 -> steps zip r2 r3 -> steps zip r1 r3.

(** All the suspended callbacks resumed in the order of their calls. *)
Definition settle_in_order (zip : Zip.archive) (r : run) : run :=
  fold_left (fun r' path => callback_resume zip path r')
            (suspended r)
            (mkRun (result_array r) []).

(** [test]: [parseUser] with an id and a username, then the presence of
    the avatar. *)
Definition test (zip : Zip.archive) : list test_result :=
  (match parseUser zip with
   | Ok user =>
       [mkTestResult "parseUser: ID and username present"
          (truthy (id user) && truthy (username user))]
   | Throw _ => [mkTestResult "parseUser throws exception" false]
   end ++
   [mkTestResult "avatar.png exists"
      match Zip.file zip "Account/avatar.png" with
      | Some _ => true
      | None => false
      end])%list.

End WithParser.

Record avatar : Type := mkAvatar {
  avatar_name : string;
  avatar_uri : value
}.

Definition dot : ascii := ascii_of_nat 46.

(** [path.split('.').pop().toLowerCase()] and the MIME type chosen from
    it. *)
Definition extension (path : string) : string :=
  toLowerCase (last (split dot path) EmptyString).

Definition mime (path : string) : string :=
  let ext := extension path in
  if ext =? "png" then "image/png"
  else if (ext =? "jpg") || (ext =? "jpeg") then "image/jpeg"
  else "application/octet-stream".

Section WithReader.

(** [file.async('base64')]: the content of an entry in base64, or a
    rejection. *)
Variable async_base64 : Zip.entry -> result string.

Definition fileToDataUri (zip : Zip.archive) (path : string) : result value :=
  match Zip.file zip path with
  | None => Ok VNull
  | Some file =>
      data <- async_base64 file ;;
      Ok (VStr ("data:" ++ mime path ++ ";base64," ++ data))
  end.

(** The relative paths that the callback of [folder.forEach] pushes. *)
Definition avatar_files (zip : Zip.archive) : list string :=
  flat_map (fun arg => if negb (Zip.dir (snd arg)) then [fst arg] else [])
           (Zip.forEach_args (Zip.folder "Account/recent_avatars") zip).

(** The files are read one after the other, each awaited; the guard
    [if (!folder) return avatars] never fires. *)
Definition parseRecentAvatars (zip : Zip.archive) : result (list avatar) :=
  mapM (fun f =>
          uri <- fileToDataUri zip ("Account/recent_avatars/" ++ f) ;;
          Ok (mkAvatar f uri))
       (avatar_files zip).

End WithReader.

End Account.

(* ===================================================================== *)
(** ** src/main.js                                                       *)
(* ===================================================================== *)

Module Main.

Import Js.

Inductive module : Type :=
| AccountModule
| MessagesModule.

(** [Object.keys(zip.files).filter(name => name.endsWith('/'))
      .map(name => name.split('/')[0])
      .filter((v, i, a) => a.indexOf(v) === i)] *)
Definition folderRoots (zip : Zip.archive) : list string :=
  map (fun name => hd EmptyString (split Messages.slash name))
      (filter (fun name => endsWith name "/") (map Zip.name zip)).

Definition rootFolders (zip : Zip.archive) : list string :=
  let a := folderRoots zip in
  filter_indexed
    (fun v i => match indexOf v a with
                | Some j => Nat.eqb j i
                | None => false
                end)
    0 a.

(** The modules that [handleFile] imports, one navigation button each, in
    the order of the folders. *)
Definition navigation (zip : Zip.archive) : list module :=
  flat_map
    (fun folder =>
       let lower := toLowerCase folder in
       if lower =? "account" then [AccountModule]
       else if lower =? "messages" then [MessagesModule]
       else [])
    (rootFolders zip).

End Main.

(* ===================================================================== *)
(** ** The terms in which the properties are stated                      *)
(* ===================================================================== *)

Module Terms.

Import Js.

(** The own properties of a record; any other value has none. *)
Definition fields (v : value) : list (string * value) :=
  match v with
  | VObj props => props
  | _ => []
  end.

(** The value of a named field, unset when the field is absent. *)
Definition field (v : value) (k : string) : value :=
  or_undef (lookup k (fields v)).

Definition has_field (v : value) (k : string) : bool :=
  match lookup k (fields v) with
  | Some _ => true
  | None => false
  end.

Definition is_list (v : value) : bool :=
  match v with
  | VArr _ => true
  | _ => false
  end.

Definition is_nonempty_list (v : value) : bool :=
  match v with
  | VArr (_ :: _) => true
  | _ => false
  end.

Definition is_string (v : value) : bool :=
  match v with
  | VStr _ => true
  | _ => false
  end.

(** Absent, or one of the values that count as false: null, false, 0 and
    the empty string. *)
Definition absent_or_falsy (v : value) : Prop :=
  v = VUndef \/ v = VNull \/ v = VBool false \/
  (exists q, v = VNum q /\ Qeq q 0) \/ v = VStr "".

(** A value whose length counts as true: a non-empty list, a non-empty
    string, or a record with such a [length] field of its own. *)
Definition has_length (v : value) : Prop :=
  (exists x l, v = VArr (x :: l)) \/
  (exists c s, v = VStr (String c s)) \/
  (exists props, v = VObj props /\ ~ absent_or_falsy (field v "length")).

(** The length of a list or of a string, the field [length] of a
    record. *)
Definition length_of (v : value) : value :=
  match v with
  | VArr items => num_of_nat (List.length items)
  | VStr s => num_of_nat (String.length s)
  | VObj props => or_undef (lookup "length" props)
  | _ => VUndef
  end.

(** A number equal to [n]. *)
Definition is_number (v : value) (n : Q) : Prop :=
  exists q, v = VNum q /\ Qeq q n.

(** The first element of a list, the first character of a string, the
    field [0] of a record. *)
Definition first (v : value) : value :=
  match v with
  | VArr (x :: _) => x
  | VStr (String c _) => VStr (String c EmptyString)
  | VObj props => or_undef (lookup "0" props)
  | _ => VUndef
  end.

(** The character [c] does not occur in [s]. *)
Fixpoint free_of (c : ascii) (s : string) : Prop :=
  match s with
  | EmptyString => True
  | String a s' => a <> c /\ free_of c s'
  end.

(** The path segments of an entry name. *)
Definition segments (path : string) : list string :=
  split Messages.slash path.

(** *** CSV logs (section 4.5) *)

(** The lines of a CSV log and the names of its header row. *)
Definition csv_lines (text : string) : list string :=
  split_lines (trim text).

Definition csv_header (text : string) : list string :=
  split Messages.comma (hd EmptyString (csv_lines text)).

Definition csv_rows (text : string) : list string :=
  tl (csv_lines text).

(** *** Channel metadata (section 4.4) *)

Definition channel_path (dir : string) : string :=
  "Messages/" ++ dir ++ "/channel.json".

(** The display name: the name field, the username of the first
    recipient, the username of the singular recipient, each taken only
    when its value counts as true, and the synthetic label last. *)
Definition display_name_truthy (ch : value) (dir : string) : value :=
  if truthy (field ch "name") then field ch "name"
  else if truthy (field (first (field ch "recipients")) "username")
  then field (first (field ch "recipients")) "username"
  else if truthy (field (field ch "recipient") "username")
  then field (field ch "recipient") "username"
  else VStr ("DM " ++ dir).

(** *** Message fields (sections 3 and 4.5) *)

(** A message field: the capitalized key, then the lowercase key, a key
    being counted only when its value is not null, and the empty string
    last. *)
Definition resolve (m : value) (capitalized lowercase : string) : value :=
  if negb (nullish (field m capitalized)) then field m capitalized
  else if negb (nullish (field m lowercase)) then field m lowercase
  else VStr "".

Definition normalize (m : value) : Messages.message :=
  {| Messages.msg_id := resolve m "ID" "id";
     Messages.msg_timestamp := resolve m "Timestamp" "timestamp";
     Messages.msg_content := resolve m "Contents" "content";
     Messages.msg_attachments := resolve m "Attachments" "attachments" |}.

(** A record of a CSV log as a message. *)
Definition from_csv (m : value) : Messages.message :=
  {| Messages.msg_id := field m "ID";
     Messages.msg_timestamp := field m "Timestamp";
     Messages.msg_content := field m "Contents";
     Messages.msg_attachments := field m "Attachments" |}.

Definition json_path (dir : string) : string :=
  "Messages/" ++ dir ++ "/messages.json".

Definition csv_path (dir : string) : string :=
  "Messages/" ++ dir ++ "/messages.csv".

(** What holds of the output field [out] resolved from the keys
    [capitalized] and [lowercase] of the record [m]: it is never unset;
    it is the empty string when both keys are absent or null; it is a
    string when each key is absent, null or a string; and a value of a
    key that is not null, of whatever type, is the field as it is. *)
Definition resolved (m : value) (capitalized lowercase : string) (out : value)
  : Prop :=
  nullish out = false /\
  (nullish (field m capitalized) = true -> nullish (field m lowercase) = true ->
   out = VStr "") /\
  (nullish (field m capitalized) = true \/ is_string (field m capitalized) = true ->
   nullish (field m lowercase) = true \/ is_string (field m lowercase) = true ->
   is_string out = true) /\
  (nullish (field m capitalized) = false -> out = field m capitalized) /\
  (nullish (field m capitalized) = true -> nullish (field m lowercase) = false ->
   out = field m lowercase).

(** The order of the two keys of a field [out] of the record [m], a key
    being counted when its value is not null. *)
Definition precedence (m : value) (capitalized lowercase : string) (out : value)
  : Prop :=
  (nullish (field m capitalized) = false -> out = field m capitalized) /\
  (nullish (field m capitalized) = true -> nullish (field m lowercase) = false ->
   out = field m lowercase) /\
  (nullish (field m capitalized) = true -> nullish (field m lowercase) = true ->
   out = VStr "").

Definition all_strings (m : Messages.message) : bool :=
  is_string (Messages.msg_id m) && is_string (Messages.msg_timestamp m) &&
  is_string (Messages.msg_content m) && is_string (Messages.msg_attachments m).

(** *** Terms of the further properties *)

(** Ascending order of strings by code units. *)
Definition ascending : list string -> Prop :=
  StronglySorted (fun a b => String.leb a b = true).

(** The number of occurrences of a character. *)
Fixpoint count_char (c : ascii) (s : string) : nat :=
  match s with
  | EmptyString => 0
  | String a s' => (if Ascii.eqb a c then 1 else 0) + count_char c s'
  end.

(** A string of white space only. *)
Fixpoint all_space (s : string) : bool :=
  match s with
  | EmptyString => true
  | String c s' => is_space c && all_space s'
  end.

(** The names of the fields of a record. *)
Definition keys (v : value) : list string := map fst (fields v).

(** The message of a row under the header ID, Timestamp, Contents,
    Attachments: its first four values. *)
Definition from_row (line : string) : Messages.message :=
  let values := split Messages.comma line in
  {| Messages.msg_id := Messages.at_index values 0;
     Messages.msg_timestamp := Messages.at_index values 1;
     Messages.msg_content := Messages.at_index values 2;
     Messages.msg_attachments := Messages.at_index values 3 |}.

(** The records of the applications among [paths] whose read succeeds. *)
Definition collected (JSON_parse : string -> option value) (zip : Zip.archive)
           (paths : list string) : list Account.application :=
  flat_map (fun path =>
              match Account.read_application JSON_parse zip path with
              | Ok app => [app]
              | Throw _ => []
              end)
           paths.

(** The files under [Account/recent_avatars/], as [forEach] meets them. *)
Definition is_avatar_file (e : Zip.entry) : bool :=
  negb (Zip.dir e) &&
  negb (slice_from (String.length "Account/recent_avatars/") (Zip.name e) =? "") &&
  startsWith (Zip.name e) "Account/recent_avatars/".

(** The names of the entries of an archive are distinct, [zip.files]
    being an object keyed by name. *)
Definition distinct_names (zip : Zip.archive) : Prop :=
  NoDup (map Zip.name zip).

End Terms.

(* ===================================================================== *)
(** ** The rules in the words of the specification                       *)
(* ===================================================================== *)

(** Each definition below follows a sentence of the specification, not
    the code; the properties compare the code with it. *)

Module Spec.

Import Js Terms.

(** Section 4.4:
    "a channel is a direct message when it has no guild-association field
    AND (its type code matches one of two known DM type codes OR it has a
    non-empty list of recipient users)" *)
Definition is_direct_message (ch : value) : bool :=
  negb (has_field ch "guild_id") &&
  (strict_eq_num (field ch "type") 1 || strict_eq_num (field ch "type") 3 ||
   is_nonempty_list (field ch "recipients")).

(** Section 4.4:
    "(1) explicit name field if non-empty, (2) first recipient's username
    if present, (3) singular-recipient's username if present, (4) a
    synthetic DM <identifier> label" *)
Definition display_name (ch : value) (dir : string) : value :=
  if truthy (field ch "name") then field ch "name"
  else if has_field (first (field ch "recipients")) "username"
  then field (first (field ch "recipients")) "username"
  else if has_field (field ch "recipient") "username"
  then field (field ch "recipient") "username"
  else VStr ("DM " ++ dir).

(** Section 4.4:
    "id=identifier, name=DM <identifier>, type=unset,
    isDirectMessage=true, guildName=null" *)
Definition fallback_record (dir : string) : Messages.channel_info :=
  {| Messages.ch_id := VStr dir;
     Messages.ch_name := VStr ("DM " ++ dir);
     Messages.ch_type := VUndef;
     Messages.ch_is_dm := true;
     Messages.ch_guild := VNull |}.

(** Section 3:
    "capitalized form takes precedence when both a capitalized and
    lowercase key exist on the same record" *)
Definition resolve_by_key (m : value) (capitalized lowercase : string) : value :=
  match lookup capitalized (fields m) with
  | Some v => v
  | None =>
      match lookup lowercase (fields m) with
      | Some v => v
      | None => VStr ""
      end
  end.

(** Section 4.3:
    "first line is a header row defining field names positionally; every
    subsequent line is split on the same delimiter and values are mapped
    to headers by position; a line with fewer values than headers yields
    unset for the missing trailing fields" *)
Definition first_line (text : string) : string :=
  hd EmptyString (split_lines text).

Definition subsequent_lines (text : string) : list string :=
  tl (split_lines text).

Definition by_position (header values : list string) (record : value) : Prop :=
  forall j h, nth_error header j = Some h ->
              field record h = Messages.at_index values j.

Definition csv_by_position (text : string) (records : list value) : Prop :=
  Forall2 (fun line record =>
             by_position (split Messages.comma (first_line text))
                         (split Messages.comma line) record)
          (subsequent_lines text) records.

(** Section 4.2:
    "Flags field defaults to an empty sequence if absent or not a
    sequence type." *)
Definition flags_or_empty (user : value) : value :=
  if is_list (field user "flags") then field user "flags" else VArr [].

End Spec.

(* ===================================================================== *)
(** ** Sample archives                                                   *)
(* ===================================================================== *)

Module Sample.

Import Js.

Definition dq : string := String (ascii_of_nat 34) EmptyString.
Definition LF : string := String nl EmptyString.

(** A parser given by a table of JSON texts and their values; it rejects
    every other text. *)
Definition parse_table (table : list (string * value)) (text : string)
  : option value :=
  lookup text table.

Definition text_file (path text : string) : Zip.entry :=
  Zip.mkEntry path false (Some text).

(** [{"k":] and ["s"] of a JSON text. *)
Definition key (k : string) : string := dq ++ k ++ dq ++ ":".
Definition str (s : string) : string := dq ++ s ++ dq.

(** [{"guild_id":0,"type":1}] *)
Definition zero_guild_text : string :=
  "{" ++ key "guild_id" ++ "0," ++ key "type" ++ "1}".
Definition zero_guild : value :=
  VObj [("guild_id", VNum 0); ("type", VNum 1)].

(** [{"recipients":"ab"}] *)
Definition text_recipients_text : string :=
  "{" ++ key "recipients" ++ str "ab" ++ "}".
Definition text_recipients : value :=
  VObj [("recipients", VStr "ab")].

(** [{"recipients":[{"username":"alice"}]}] *)
Definition alice_text : string :=
  "{" ++ key "recipients" ++ "[{" ++ key "username" ++ str "alice" ++ "}]}".
Definition alice : value :=
  VObj [("recipients", VArr [VObj [("username", VStr "alice")]])].

(** [{"recipients":[{"username":""}]}] *)
Definition nameless_text : string :=
  "{" ++ key "recipients" ++ "[{" ++ key "username" ++ str "" ++ "}]}".
Definition nameless : value :=
  VObj [("recipients", VArr [VObj [("username", VStr "")]])].

(** [[{"ID":"9","content":"hi"}]] *)
Definition mixed_text : string :=
  "[{" ++ key "ID" ++ str "9" ++ "," ++ key "content" ++ str "hi" ++ "}]".
Definition mixed : value :=
  VArr [VObj [("ID", VStr "9"); ("content", VStr "hi")]].

(** [[{"ID":null,"id":"5"}]] *)
Definition null_id_text : string :=
  "[{" ++ key "ID" ++ "null," ++ key "id" ++ str "5" ++ "}]".
Definition null_id : value :=
  VArr [VObj [("ID", VNull); ("id", VStr "5")]].

(** [[null,{"ID":"1"}]], and [JSON.parse] on it *)
Definition null_record_text : string :=
  "[null,{" ++ key "ID" ++ str "1" ++ "}]".
Definition null_record : value :=
  VArr [VNull; VObj [("ID", VStr "1")]].
Definition parse_null_record : string -> option value :=
  parse_table [ (null_record_text, null_record) ].

(** [[{"ID":9,"Contents":"hi"}]] *)
Definition numeric_id_text : string :=
  "[{" ++ key "ID" ++ "9," ++ key "Contents" ++ str "hi" ++ "}]".
Definition numeric_id : value :=
  VArr [VObj [("ID", VNum 9); ("Contents", VStr "hi")]].

(** [{"id":"1","username":"u","flags":64}] *)
Definition user_text : string :=
  "{" ++ key "id" ++ str "1" ++ "," ++ key "username" ++ str "u" ++ "," ++
  key "flags" ++ "64}".
Definition user : value :=
  VObj [("id", VStr "1"); ("username", VStr "u"); ("flags", VNum 64)].

(** [{"id":"7","name":"Bot","description":"d"}] *)
Definition app_text : string :=
  "{" ++ key "id" ++ str "7" ++ "," ++ key "name" ++ str "Bot" ++ "," ++
  key "description" ++ str "d" ++ "}".
Definition app : value :=
  VObj [("id", VStr "7"); ("name", VStr "Bot"); ("description", VStr "d")].
Definition app_record : Account.application :=
  Account.mkApplication (VStr "7") (VStr "Bot") (VStr "d").

(** A text that is not JSON. *)
Definition broken_text : string := "{".

Definition folder_entry (path : string) : Zip.entry :=
  Zip.mkEntry path true (Some "").

Definition account_archive : Zip.archive :=
  [ folder_entry "Account/"; text_file "Account/user.json" user_text ].

Definition app_path (id : string) : string :=
  "Account/applications/" ++ id ++ "/application.json".

(** One connected application. *)
Definition one_application : Zip.archive :=
  [ folder_entry "Account/";
    folder_entry "Account/applications/";
    folder_entry "Account/applications/7/";
    text_file (app_path "7") app_text ].

(** A well-formed application and a malformed one. *)
Definition two_applications : Zip.archive :=
  [ folder_entry "Account/";
    folder_entry "Account/applications/";
    folder_entry "Account/applications/7/";
    text_file (app_path "7") app_text;
    folder_entry "Account/applications/8/";
    text_file (app_path "8") broken_text ].

(** [JSON.parse] on the texts of the samples. *)
Definition parse : string -> option value :=
  parse_table
    [ (zero_guild_text, zero_guild);
      (text_recipients_text, text_recipients);
      (alice_text, alice);
      (nameless_text, nameless);
      (mixed_text, mixed);
      (null_id_text, null_id);
      (numeric_id_text, numeric_id);
      (user_text, user);
      (app_text, app) ].

Definition json_log (dir text : string) : Zip.archive :=
  [ text_file ("Messages/" ++ dir ++ "/messages.json") text ].

Definition csv_log (dir text : string) : Zip.archive :=
  [ text_file ("Messages/" ++ dir ++ "/messages.csv") text ].

Definition channel_archive (dir text : string) : Zip.archive :=
  [ text_file ("Messages/" ++ dir ++ "/channel.json") text ].

(** The sample of [test] in messages.js. *)
Definition csvSample : string :=
  "ID,Timestamp,Contents,Attachments" ++ LF ++
  "1,2021-01-01,Hello," ++ LF ++
  "2,2021-01-02,World,link".

(** *** Samples of the further properties *)

(** A row whose text holds a comma. *)
Definition commaSample : string :=
  "ID,Timestamp,Contents,Attachments" ++ LF ++ "1,2021-01-01,Hello, world,link".

(** [file.async('base64')] on the samples: the base64 of the contents
    [png] and [jpg]; any other entry cannot be read. *)
Definition base64 (e : Zip.entry) : result string :=
  match Zip.content e with
  | Some text =>
      if text =? "png" then Ok "cG5n"
      else if text =? "jpg" then Ok "anBn"
      else Throw ReadFailure
  | None => Throw ReadFailure
  end.

Definition avatars_archive : Zip.archive :=
  [ folder_entry "Account/";
    folder_entry "Account/recent_avatars/";
    text_file "Account/recent_avatars/a.PNG" "png";
    text_file "Account/recent_avatars/b.jpg" "jpg" ].

Definition unreadable_avatar : Zip.entry :=
  Zip.mkEntry "Account/recent_avatars/c.png" false None.

Definition broken_avatars_archive : Zip.archive :=
  [ folder_entry "Account/";
    folder_entry "Account/recent_avatars/";
    text_file "Account/recent_avatars/a.PNG" "png";
    unreadable_avatar ].

(** An archive whose account folder is written in lower case. *)
Definition lowercase_archive : Zip.archive :=
  [ folder_entry "account/"; text_file "account/user.json" user_text ].

(** An archive of files without entries for their folders. *)
Definition files_only_archive : Zip.archive :=
  [ text_file "Messages/c7/messages.json" mixed_text ].

(** [{"name":5,"type":1}], a channel record whose name is a number, in
    an archive of three channels, and [JSON.parse] on it. *)
Definition numeric_name_text : string :=
  "{" ++ key "name" ++ "5," ++ key "type" ++ "1}".
Definition numeric_name : value :=
  VObj [("name", VNum 5); ("type", VNum 1)].
Definition parse_numeric_name : string -> option value :=
  parse_table [ (numeric_name_text, numeric_name) ].
Definition numeric_name_archive : Zip.archive :=
  [ text_file "Messages/c/messages.csv" "ID";
    text_file "Messages/b/channel.json" numeric_name_text;
    text_file "Messages/b/messages.csv" "ID";
    text_file "Messages/a/messages.csv" "ID" ].

(** CSV texts: a header name that is repeated, a text that starts with
    an empty line, a header named [__proto__]. *)
Definition repeatedHeader : string := "a,a" ++ LF ++ "1,2".
Definition blankFirstLine : string := LF ++ "ID" ++ LF ++ "1".
Definition protoHeader : string := "__proto__,a" ++ LF ++ "x,y".

End Sample.

(* ===================================================================== *)
(** ** Facts about strings and the archive accessor                      *)
(* ===================================================================== *)

Section StringFacts.

Import Terms.

Lemma substring_all (s : string) : substring 0 (String.length s) s = s.
Proof.
  induction s as [|c s IH]; simpl; [reflexivity | now rewrite IH].
Qed.

Lemma slice_from_0 (s : string) : Js.slice_from 0 s = s.
Proof.
  unfold Js.slice_from. rewrite Nat.sub_0_r. apply substring_all.
Qed.

Lemma strip_prefix_spec (p s r : string) :
  Messages.strip_prefix p s = Some r <-> s = p ++ r.
Proof.
  revert s; induction p as [|a p IH]; intros s; simpl.
  - split; [now intros [= ->] | now intros ->].
  - destruct s as [|b s]; [split; discriminate|].
    destruct (Ascii.eqb_spec a b) as [->|Hab].
    + rewrite IH. split; [now intros -> | now intros [= ->]].
    + split; [discriminate | intros [= E _]; congruence].
Qed.

Lemma break_slash_spec (s d f : string) :
  Messages.break_slash s = Some (d, f) <->
  s = d ++ String Messages.slash f /\ free_of Messages.slash d.
Proof.
  revert d; induction s as [|c s IH]; intros d; simpl.
  - split; [discriminate | intros [E _]; destruct d; discriminate].
  - destruct (Ascii.eqb_spec c Messages.slash) as [->|Hc].
    + split.
      * intros [= <- <-]. now split.
      * intros [E F]. destruct d as [|a d]; simpl in *.
        -- now injection E as ->.
        -- injection E as <- _. now destruct F.
    + split.
      * destruct (Messages.break_slash s) as [[d' f']|]; [|discriminate].
        intros [= <- <-]. destruct (proj1 (IH d') eq_refl) as [-> F].
        simpl; split; [reflexivity | now split].
      * intros [E F]. destruct d as [|a d]; simpl in *.
        -- injection E as E _. congruence.
        -- injection E as <- E. destruct F as [_ F].
           now rewrite (proj2 (IH d) (conj E F)).
Qed.

Lemma existsb_eqb_In (x : string) (l : list string) :
  existsb (String.eqb x) l = true <-> In x l.
Proof.
  rewrite existsb_exists. split.
  - intros (y & Hy & E). apply String.eqb_eq in E. now subst.
  - intros H. exists x. split; [assumption | apply String.eqb_refl].
Qed.

Lemma split_cons_head (c a : ascii) (s : string) :
  a <> c -> Js.split c (String a s) = Js.cons_head a (Js.split c s).
Proof.
  intros H. simpl. now destruct (Ascii.eqb_spec a c).
Qed.

Lemma split_nonempty (c : ascii) (s : string) : Js.split c s <> [].
Proof.
  destruct s as [|a s]; simpl; [discriminate|].
  destruct (Ascii.eqb a c); [discriminate|].
  destruct (Js.split c s); discriminate.
Qed.

Lemma split_app_sep (c : ascii) (a b : string) :
  free_of c a -> Js.split c (a ++ String c b) = a :: Js.split c b.
Proof.
  induction a as [|x a IH]; simpl; intros F.
  - now rewrite Ascii.eqb_refl.
  - destruct F as [Hx F]. destruct (Ascii.eqb_spec x c); [contradiction|].
    now rewrite (IH F).
Qed.

Lemma split_head_free (c : ascii) (s : string) :
  free_of c (hd EmptyString (Js.split c s)).
Proof.
  induction s as [|a s IH]; simpl; [exact I|].
  destruct (Ascii.eqb_spec a c) as [->|Ha]; simpl; [exact I|].
  destruct (Js.split c s) as [|h t]; simpl in *; now split.
Qed.

Lemma match_channel_spec (p d : string) :
  Messages.match_channel p = Some d <->
  d <> "" /\ free_of Messages.slash d /\
  exists f, In f Messages.log_names /\ p = "Messages/" ++ d ++ "/" ++ f.
Proof.
  unfold Messages.match_channel. split.
  - destruct (Messages.strip_prefix "Messages/" p) as [rest|] eqn:S; [|discriminate].
    apply strip_prefix_spec in S.
    destruct (Messages.break_slash rest) as [[d' f]|] eqn:B; [|discriminate].
    apply break_slash_spec in B. destruct B as [-> F].
    destruct (negb (d' =? "") && existsb (String.eqb f) Messages.log_names) eqn:T;
      [|discriminate].
    intros [= <-]. apply andb_true_iff in T. destruct T as [N M].
    apply negb_true_iff, String.eqb_neq in N. apply existsb_eqb_In in M.
    repeat split; try assumption. exists f. split; [assumption | exact S].
  - intros (N & F & f & M & ->).
    assert (S : Messages.strip_prefix "Messages/" ("Messages/" ++ d ++ "/" ++ f)
                = Some (d ++ "/" ++ f)) by (now apply strip_prefix_spec).
    rewrite S.
    assert (B : Messages.break_slash (d ++ "/" ++ f) = Some (d, f))
      by (apply break_slash_spec; now split).
    rewrite B.
    apply String.eqb_neq in N. rewrite N. simpl negb.
    apply existsb_eqb_In in M. now rewrite M.
Qed.

(** The identifier that [match_channel] extracts is the second path
    segment. *)
Lemma second_segment (d f : string) :
  free_of Messages.slash d ->
  nth_error (segments ("Messages/" ++ d ++ "/" ++ f)) 1 = Some d.
Proof.
  intros F. unfold segments.
  change ("Messages/" ++ d ++ "/" ++ f)
    with ("Messages" ++ String Messages.slash (d ++ String Messages.slash f)).
  rewrite split_app_sep by (simpl; repeat split; discriminate).
  now rewrite (split_app_sep _ _ _ F).
Qed.

Lemma second_segment_free (d f : string) :
  nth_error (segments ("Messages/" ++ d ++ "/" ++ f)) 1 = Some d ->
  free_of Messages.slash d.
Proof.
  unfold segments.
  change ("Messages/" ++ d ++ "/" ++ f)
    with ("Messages" ++ String Messages.slash (d ++ String Messages.slash f)).
  rewrite split_app_sep by (simpl; repeat split; discriminate).
  simpl. intros H.
  pose proof (split_head_free Messages.slash (d ++ String Messages.slash f)) as F.
  destruct (Js.split Messages.slash (d ++ String Messages.slash f)) as [|h t];
    [discriminate|].
  injection H as ->. exact F.
Qed.

Lemma forEach_args_root (zip : Zip.archive) (p : string) (e : Zip.entry) :
  In (p, e) (Zip.forEach_args "" zip) <->
  In e zip /\ p = Zip.name e /\ p <> "".
Proof.
  unfold Zip.forEach_args. rewrite in_flat_map. simpl String.length.
  split.
  - intros (e' & He & Hin). rewrite slice_from_0 in Hin.
    unfold Js.startsWith in Hin. simpl in Hin.
    destruct (Zip.name e' =? "") eqn:N; simpl in Hin.
    + contradiction.
    + replace (String.prefix "" (Zip.name e')) with true in Hin
        by (now destruct (Zip.name e')).
      destruct Hin as [[= <- <-]|[]]. apply String.eqb_neq in N. now repeat split.
  - intros (He & -> & N). exists e. split; [assumption|].
    rewrite slice_from_0. apply String.eqb_neq in N. rewrite N.
    unfold Js.startsWith.
    replace (String.prefix "" (Zip.name e)) with true by (now destruct (Zip.name e)).
    now left.
Qed.

End StringFacts.

Section Scanner.

Import Terms.

Lemma set_add_In (d x : string) (dirs : list string) :
  In x (Messages.set_add d dirs) <-> x = d \/ In x dirs.
Proof.
  unfold Messages.set_add.
  destruct (existsb (String.eqb d) dirs) eqn:E.
  - apply existsb_eqb_In in E. split; [now right | intros [->|H]; assumption].
  - rewrite in_app_iff. simpl. intuition.
Qed.

Lemma set_add_NoDup (d : string) (dirs : list string) :
  NoDup dirs -> NoDup (Messages.set_add d dirs).
Proof.
  intros H. unfold Messages.set_add.
  destruct (existsb (String.eqb d) dirs) eqn:E; [assumption|].
  apply NoDup_app; [assumption | repeat constructor; intros [] |].
  intros x Hx [<-|[]].
  apply existsb_eqb_In in Hx. congruence.
Qed.

Lemma scan_fold (args : list (string * Zip.entry)) (dirs : list string) :
  NoDup dirs ->
  NoDup (fold_left Messages.scan args dirs) /\
  forall d, In d (fold_left Messages.scan args dirs) <->
            In d dirs \/ exists a, In a args /\ Messages.match_channel (fst a) = Some d.
Proof.
  revert dirs; induction args as [|a args IH]; intros dirs ND; simpl.
  - split; [assumption|]. intros d; split; [now left | intros [H|(a & [] & _)]; exact H].
  - assert (ND' : NoDup (Messages.scan dirs a)).
    { unfold Messages.scan. destruct (Messages.match_channel (fst a));
        [now apply set_add_NoDup | assumption]. }
    destruct (IH _ ND') as [N I]. split; [assumption|].
    intros d. rewrite I. unfold Messages.scan.
    destruct (Messages.match_channel (fst a)) as [d'|] eqn:M.
    + rewrite set_add_In. split.
      * intros [[->|H]|(b & Hb & Mb)];
          [right; exists a; split; [now left | assumption]
          | now left
          | right; exists b; split; [now right | assumption]].
      * intros [H|(b & [<-|Hb] & Mb)];
          [left; now right
          | left; left; congruence
          | right; exists b; now split].
    + split.
      * intros [H|(b & Hb & Mb)];
          [now left | right; exists b; split; [now right | assumption]].
      * intros [H|(b & [<-|Hb] & Mb)];
          [now left | congruence | right; exists b; now split].
Qed.



(** A channel with a JSON log, a CSV log and a metadata file is listed
    once. *)
Example listChannelDirs_both_logs :
  Messages.listChannelDirs
    [ Sample.text_file "Messages/index.json" "{}";
      Sample.text_file "Messages/c7/messages.json" "[]";
      Sample.text_file "Messages/c7/messages.csv" "ID";
      Sample.text_file "Messages/c3/channel.json" "{}";
      Sample.text_file "Messages/c7/channel.json" "{}" ]
  = ["c7"; "c3"].
Proof. reflexivity. Qed.

End Scanner.

(* ===================================================================== *)
(** ** The CSV parser                                                    *)
(* ===================================================================== *)

Section Csv.

Import Js Terms.

Lemma lookup_obj_put_same (k : string) (v : value) (props : list (string * value)) :
  lookup k (obj_put k v props) = Some v.
Proof.
  induction props as [|[k' v'] t IH]; simpl.
  - now rewrite String.eqb_refl.
  - destruct (k' =? k) eqn:E; simpl.
    + now rewrite String.eqb_refl.
    + now rewrite E.
Qed.

Lemma lookup_obj_put_other (k k' : string) (v : value) (props : list (string * value)) :
  k' <> k -> lookup k' (obj_put k v props) = lookup k' props.
Proof.
  intros N. induction props as [|[k0 v0] t IH]; simpl.
  - apply String.eqb_neq in N. rewrite String.eqb_sym. now rewrite N.
  - destruct (k0 =? k) eqn:E; simpl.
    + apply String.eqb_eq in E. subst k0.
      assert (E' : (k =? k') = false) by (apply String.eqb_neq; congruence).
      now rewrite E'.
    + now rewrite IH.
Qed.

Lemma obj_set_proto (v : value) (props : list (string * value)) :
  obj_set "__proto__" v props = props.
Proof. reflexivity. Qed.

Lemma obj_set_put (k : string) (v : value) (props : list (string * value)) :
  k <> "__proto__" -> obj_set k v props = obj_put k v props.
Proof. intros N. unfold obj_set. apply String.eqb_neq in N. now rewrite N. Qed.

Lemma lookup_obj_set_same (k : string) (v : value) (props : list (string * value)) :
  k <> "__proto__" -> lookup k (obj_set k v props) = Some v.
Proof. intros N. rewrite obj_set_put by exact N. apply lookup_obj_put_same. Qed.

Lemma lookup_obj_set_other (k k' : string) (v : value) (props : list (string * value)) :
  k' <> k -> lookup k' (obj_set k v props) = lookup k' props.
Proof.
  intros N. unfold obj_set. destruct (k =? "__proto__"); [reflexivity|].
  now apply lookup_obj_put_other.
Qed.

(** A header that does not occur among the columns still to assign keeps
    its value. *)
Lemma assign_columns_absent (headers : list string) (i : nat) (values : list string)
      (obj : list (string * value)) (h : string) :
  ~ In h headers ->
  lookup h (Messages.assign_columns headers i values obj) = lookup h obj.
Proof.
  revert i obj; induction headers as [|h0 t IH]; intros i obj N; simpl.
  - reflexivity.
  - rewrite IH by (intros H; apply N; now right).
    apply lookup_obj_set_other. intros ->. apply N. now left.
Qed.

Lemma assign_columns_last (headers : list string) (i j : nat) (values : list string)
      (obj : list (string * value)) (h : string) :
  h <> "__proto__" ->
  nth_error headers j = Some h ->
  (forall k, j < k -> nth_error headers k <> Some h) ->
  lookup h (Messages.assign_columns headers i values obj)
  = Some (Messages.at_index values (i + j)).
Proof.
  intros P.
  revert i j obj; induction headers as [|h0 t IH]; intros i j obj Hj Last.
  - destruct j; discriminate.
  - destruct j as [|j]; simpl in *.
    + injection Hj as ->. rewrite Nat.add_0_r.
      rewrite assign_columns_absent.
      * now apply lookup_obj_set_same.
      * intros H. apply In_nth_error in H. destruct H as [k Hk].
        apply (Last (S k)); [lia | exact Hk].
    + rewrite (IH (S i) j); [f_equal; f_equal; lia | assumption |].
      intros k Hk. apply (Last (S k)). lia.
Qed.

Lemma csv_lines_nonempty (text : string) : csv_lines text <> [].
Proof.
  unfold csv_lines. generalize (trim text) as s.
  assert (C : forall c l, l <> [] -> cons_head c l <> [])
    by (intros c [|? ?] H; [contradiction | discriminate]).
  induction s as [|c s IH]; simpl; [discriminate|].
  destruct (Ascii.eqb c nl); [discriminate|].
  destruct (Ascii.eqb c cr); [|now apply C].
  destruct s as [|c' s']; [now apply C|].
  destruct (Ascii.eqb c' nl); [exact IH | now apply C].
Qed.

Lemma parseCsv_rows (text : string) :
  Messages.parseCsv text
  = map (fun line =>
           VObj (Messages.assign_columns (csv_header text) 0
                   (split Messages.comma line) []))
        (csv_rows text).
Proof.
  unfold Messages.parseCsv, csv_rows, csv_header.
  fold (csv_lines text).
  destruct (csv_lines text) as [|l ls] eqn:E; [|reflexivity].
  now destruct (csv_lines_nonempty text).
Qed.

Lemma assign_columns_proto (headers : list string) (i : nat) (values : list string)
      (obj : list (string * value)) :
  lookup "__proto__" (Messages.assign_columns headers i values obj)
  = lookup "__proto__" obj.
Proof.
  revert i obj; induction headers as [|h0 t IH]; intros i obj; simpl.
  - reflexivity.
  - rewrite IH. destruct (String.eqb_spec h0 "__proto__") as [->|N].
    + now rewrite obj_set_proto.
    + apply lookup_obj_set_other. congruence.
Qed.




End Csv.

(* ===================================================================== *)
(** ** Values: what counts as true, property reads                       *)
(* ===================================================================== *)

Section Values.

Import Js Terms.

Lemma truthy_false_iff (v : value) : truthy v = false <-> absent_or_falsy v.
Proof.
  unfold absent_or_falsy. destruct v as [| |b|q|s|l|props]; simpl.
  - intuition.
  - intuition.
  - split.
    + intros ->. auto.
    + intros [H|[H|[H|[(q & H & _)|H]]]]; try discriminate. now injection H.
  - rewrite negb_false_iff, Qeq_bool_iff. split.
    + intros H. right; right; right; left. now exists q.
    + intros [H|[H|[H|[(q' & H & E)|H]]]]; try discriminate. now injection H as ->.
  - rewrite negb_false_iff, String.eqb_eq. split.
    + intros ->. auto 6.
    + intros [H|[H|[H|[(q & H & _)|H]]]]; try discriminate. now injection H.
  - split; [discriminate|].
    intros [H|[H|[H|[(q & H & _)|H]]]]; discriminate.
  - split; [discriminate|].
    intros [H|[H|[H|[(q & H & _)|H]]]]; discriminate.
Qed.

Lemma truthy_true_iff (v : value) : truthy v = true <-> ~ absent_or_falsy v.
Proof.
  rewrite <- truthy_false_iff. destruct (truthy v); split; congruence.
Qed.

Lemma truthy_num_of_nat (n : nat) : truthy (num_of_nat n) = negb (Nat.eqb n 0).
Proof.
  unfold num_of_nat. simpl. f_equal.
  destruct (Qeq_bool (inject_Z (Z.of_nat n)) 0) eqn:E.
  - apply Qeq_bool_iff in E. unfold Qeq in E. simpl in E.
    symmetry. apply Nat.eqb_eq. lia.
  - destruct n; [discriminate E | reflexivity].
Qed.

Lemma truthy_length_of (v : value) : truthy (length_of v) = true <-> has_length v.
Proof.
  unfold has_length. destruct v as [| |b|q|s|l|props]; simpl length_of.
  - split; [discriminate | intros [(?&?&?)|[(?&?&?)|(?&?&?)]]; discriminate].
  - split; [discriminate | intros [(?&?&?)|[(?&?&?)|(?&?&?)]]; discriminate].
  - split; [discriminate | intros [(?&?&?)|[(?&?&?)|(?&?&?)]]; discriminate].
  - split; [discriminate | intros [(?&?&?)|[(?&?&?)|(?&?&?)]]; discriminate].
  - rewrite truthy_num_of_nat. destruct s as [|c s]; simpl.
    + split; [discriminate | intros [(?&?&?)|[(?&?&?)|(?&?&?)]]; discriminate].
    + split; [intros _; right; left; now exists c, s | reflexivity].
  - rewrite truthy_num_of_nat. destruct l as [|x l]; simpl.
    + split; [discriminate | intros [(?&?&?)|[(?&?&?)|(?&?&?)]]; discriminate].
    + split; [intros _; left; now exists x, l | reflexivity].
  - change (or_undef (lookup "length" props)) with (field (VObj props) "length").
    rewrite truthy_true_iff. split.
    + intros H. right; right. now exists props.
    + intros [(?&?&?)|[(?&?&?)|(? & _ & H)]]; try discriminate. exact H.
Qed.

Lemma strict_eq_num_iff (v : value) (n : Q) :
  strict_eq_num v n = true <-> is_number v n.
Proof.
  unfold is_number. destruct v as [| |b|q|s|l|props]; simpl;
    try (split; [discriminate | intros (? & ? & _); discriminate]).
  rewrite Qeq_bool_iff. split.
  - intros H. now exists q.
  - intros (q' & [= ->] & H). exact H.
Qed.

(** Reading a field other than [length] of a value that is neither null
    nor undefined gives the field of that name, unset when absent. *)
Lemma get_field (v : value) (k : string) :
  nullish v = false -> k <> "length" -> get v k = Ok (field v k).
Proof.
  intros N K. apply String.eqb_neq in K.
  destruct v; try discriminate; simpl; try reflexivity; now rewrite K.
Qed.

Lemma get_opt_field (v : value) (k : string) :
  k <> "length" -> get_opt v k = Ok (field v k).
Proof.
  intros K. unfold get_opt. destruct (nullish v) eqn:N.
  - now destruct v.
  - now apply get_field.
Qed.

Lemma get_opt_length (v : value) : get_opt v "length" = Ok (length_of v).
Proof. now destruct v. Qed.

Lemma get0_opt_first (v : value) : get0_opt v = Ok (first v).
Proof.
  now destruct v as [| |b|q|[|c s]|[|x l]|props].
Qed.

End Values.

(* ===================================================================== *)
(** ** The channel metadata resolver                                     *)
(* ===================================================================== *)

Section Channel.

Import Js Terms.

Variable JSON_parse : string -> option value.

Ltac by_cases G :=
  repeat (rewrite ?G, ?get_opt_length, ?get0_opt_first, ?get_opt_field by discriminate;
          cbn [bind negb truthy nullish];
          repeat match goal with
                 | H : ?b = true |- context [?b] => rewrite H
                 | H : ?b = false |- context [?b] => rewrite H
                 end);
  try reflexivity.

Lemma isDM_value (ch : value) :
  nullish ch = false ->
  exists v,
    Messages.isDM ch = Ok v /\
    truthy v =
      negb (truthy (field ch "guild_id")) &&
      (strict_eq_num (field ch "type") 1 || strict_eq_num (field ch "type") 3 ||
       truthy (length_of (field ch "recipients"))).
Proof.
  intros N.
  assert (G : forall k, k <> "length" -> get ch k = Ok (field ch k))
    by (intros k K; now apply get_field).
  unfold Messages.isDM, and_then, or_else.
  destruct (truthy (field ch "guild_id")) eqn:Eg,
           (strict_eq_num (field ch "type") 1) eqn:E1,
           (strict_eq_num (field ch "type") 3) eqn:E3;
    by_cases G; eexists; (split; [reflexivity|]); reflexivity.
Qed.

Lemma name_value (ch : value) (dir : string) :
  nullish ch = false ->
  or_else
    (or_else
       (or_else
          (get ch "name")
          (r <- get ch "recipients" ;; e <- get0_opt r ;; get_opt e "username"))
       (r <- get ch "recipient" ;; get_opt r "username"))
    (Ok (VStr ("DM " ++ dir)))
  = Ok (display_name_truthy ch dir).
Proof.
  intros N.
  assert (G : forall k, k <> "length" -> get ch k = Ok (field ch k))
    by (intros k K; now apply get_field).
  unfold or_else, display_name_truthy.
  destruct (truthy (field ch "name")) eqn:En,
           (truthy (field (first (field ch "recipients")) "username")) eqn:Ef,
           (truthy (field (field ch "recipient") "username")) eqn:Er;
    by_cases G.
Qed.

Lemma guild_value (ch : value) :
  nullish ch = false ->
  coalesce (g <- get ch "guild" ;; get_opt g "name") (Ok VNull)
  = Ok (if nullish (field (field ch "guild") "name") then VNull
        else field (field ch "guild") "name").
Proof.
  intros N. unfold coalesce.
  rewrite (get_field ch "guild" N) by discriminate. cbn [bind].
  rewrite get_opt_field by discriminate. cbn [bind].
  now destruct (nullish (field (field ch "guild") "name")).
Qed.

(** The body of the [try] block on a value that is not null. *)
Lemma channelInfo_ok (ch : value) (dir : string) :
  nullish ch = false ->
  exists v,
    Messages.isDM ch = Ok v /\
    Messages.channelInfo ch dir =
    Ok {| Messages.ch_id := field ch "id";
          Messages.ch_name := display_name_truthy ch dir;
          Messages.ch_type := field ch "type";
          Messages.ch_is_dm := truthy v;
          Messages.ch_guild :=
            if nullish (field (field ch "guild") "name") then VNull
            else field (field ch "guild") "name" |}.
Proof.
  intros N. destruct (isDM_value ch N) as (v & Hv & _).
  exists v. split; [exact Hv|].
  unfold Messages.channelInfo. rewrite Hv. cbn [bind].
  rewrite (name_value ch dir N), (guild_value ch N).
  rewrite !(get_field ch _ N) by discriminate. reflexivity.
Qed.

Lemma channelInfo_null (ch : value) (dir : string) :
  nullish ch = true -> Messages.channelInfo ch dir = Throw TypeError.
Proof. now destruct ch. Qed.

(** When the read fails. *)
Lemma readJson_throws (zip : Zip.archive) (path : string) :
  (exists e, Messages.readJson JSON_parse zip path = Throw e) <->
  Zip.file zip path = None \/
  exists f, Zip.file zip path = Some f /\
            (Zip.content f = None \/
             exists text, Zip.content f = Some text /\ JSON_parse text = None).
Proof.
  unfold Messages.readJson, Zip.async_string.
  destruct (Zip.file zip path) as [f|].
  - destruct (Zip.content f) as [text|] eqn:C; simpl.
    + destruct (JSON_parse text) as [v|] eqn:P.
      * split.
        -- intros [e E]. discriminate.
        -- intros [H|(f' & [= <-] & [H|(t & H & H')])]; try congruence.
      * split.
        -- intros _. right. exists f. split; [reflexivity|]. right. now exists text.
        -- intros _. now exists SyntaxError.
    + split.
      * intros _. right. exists f. split; [reflexivity | now left].
      * intros _. now exists ReadFailure.
  - split; [now left | intros _; now exists (FileNotFound path)].
Qed.

Lemma readChannelInfo_read (zip : Zip.archive) (dir : string) (ch : value) :
  Messages.readJson JSON_parse zip (channel_path dir) = Ok ch ->
  nullish ch = false ->
  Messages.readChannelInfo JSON_parse zip dir = Messages.channelInfo ch dir.
Proof.
  intros R N. unfold Messages.readChannelInfo. fold (channel_path dir).
  rewrite R. cbn [bind].
  destruct (channelInfo_ok ch dir N) as (v & _ & ->). reflexivity.
Qed.

Lemma readChannelInfo_failed (zip : Zip.archive) (dir : string) (e : error) :
  Messages.readJson JSON_parse zip (channel_path dir) = Throw e ->
  Messages.readChannelInfo JSON_parse zip dir = Ok (Messages.fallback dir).
Proof.
  intros R. unfold Messages.readChannelInfo. fold (channel_path dir).
  now rewrite R.
Qed.

(** C3, as amended.  When [Messages/<id>/channel.json] is absent, cannot
    be read or is malformed, the resolver returns, without an error, the
    fallback record: id the identifier, name DM followed by the
    identifier, type the empty string, isDirectMessage true, guildName
    null. *)
Theorem readChannelInfo_fallback (zip : Zip.archive) (dir : string) :
  (Zip.file zip (channel_path dir) = None \/
   exists f, Zip.file zip (channel_path dir) = Some f /\
             (Zip.content f = None \/
              exists text, Zip.content f = Some text /\ JSON_parse text = None)) ->
  Messages.readChannelInfo JSON_parse zip dir =
  Ok {| Messages.ch_id := VStr dir;
        Messages.ch_name := VStr ("DM " ++ dir);
        Messages.ch_type := VStr "";
        Messages.ch_is_dm := true;
        Messages.ch_guild := VNull |}.
Proof.
  intros H. apply readJson_throws in H. destruct H as [e E].
  exact (readChannelInfo_failed zip dir e E).
Qed.

(** C4, as amended.  For a parsed channel record other than null,
    isDirectMessage is true exactly when guild_id is absent or counts as
    false (null, false, 0, the empty string) and the type is the number 1
    or 3 or the recipients value has a length that counts as true (a
    non-empty list, a non-empty string, a record with such a length). *)
Theorem readChannelInfo_is_dm (zip : Zip.archive) (dir : string) (ch : value) :
  Messages.readJson JSON_parse zip (channel_path dir) = Ok ch ->
  nullish ch = false ->
  exists info,
    Messages.readChannelInfo JSON_parse zip dir = Ok info /\
    (Messages.ch_is_dm info = true <->
     absent_or_falsy (field ch "guild_id") /\
     (is_number (field ch "type") 1 \/ is_number (field ch "type") 3 \/
      has_length (field ch "recipients"))).
Proof.
  intros R N. rewrite (readChannelInfo_read zip dir ch R N).
  destruct (channelInfo_ok ch dir N) as (v & Hv & ->).
  destruct (isDM_value ch N) as (v' & Hv' & T).
  rewrite Hv in Hv'. injection Hv' as <-.
  eexists. split; [reflexivity|]. cbn [Messages.ch_is_dm]. rewrite T.
  rewrite andb_true_iff, !orb_true_iff, negb_true_iff.
  rewrite truthy_false_iff, !strict_eq_num_iff, truthy_length_of. tauto.
Qed.

(** Where guild_id is absent or counts as true and recipients is absent
    or a list, the flag is the one of the specification's rule. *)
Lemma readChannelInfo_is_dm_agrees (zip : Zip.archive) (dir : string) (ch : value) :
  Messages.readJson JSON_parse zip (channel_path dir) = Ok ch ->
  nullish ch = false ->
  has_field ch "guild_id" = false \/ truthy (field ch "guild_id") = true ->
  nullish (field ch "recipients") = true \/ is_list (field ch "recipients") = true ->
  exists info,
    Messages.readChannelInfo JSON_parse zip dir = Ok info /\
    Messages.ch_is_dm info = Spec.is_direct_message ch.
Proof.
  intros R N Hg Hr. rewrite (readChannelInfo_read zip dir ch R N).
  destruct (channelInfo_ok ch dir N) as (v & Hv & ->).
  destruct (isDM_value ch N) as (v' & Hv' & T).
  rewrite Hv in Hv'. injection Hv' as <-.
  eexists. split; [reflexivity|]. cbn [Messages.ch_is_dm]. rewrite T.
  unfold Spec.is_direct_message. f_equal.
  - unfold has_field, field in *.
    destruct (lookup "guild_id" (fields ch)) as [g|]; simpl in *.
    + destruct Hg as [Hg|Hg]; [discriminate | now rewrite Hg].
    + reflexivity.
  - f_equal. destruct (field ch "recipients") as [| |b|q|s|l|props];
      try reflexivity; try (destruct Hr; discriminate).
    cbn [length_of]. rewrite truthy_num_of_nat. now destruct l.
Qed.

(** C5, as amended.  The display name of a parsed channel record is the
    name field when it counts as true (for a string: when it is not
    empty); otherwise the username of the first recipient when that
    counts as true; otherwise the username of the singular recipient
    when that counts as true; otherwise DM followed by the directory
    identifier. *)
Theorem readChannelInfo_name (zip : Zip.archive) (dir : string) (ch : value) :
  Messages.readJson JSON_parse zip (channel_path dir) = Ok ch ->
  exists info,
    Messages.readChannelInfo JSON_parse zip dir = Ok info /\
    Messages.ch_name info = display_name_truthy ch dir.
Proof.
  intros R. destruct (nullish ch) eqn:N.
  - unfold Messages.readChannelInfo. fold (channel_path dir).
    rewrite R. cbn [bind]. rewrite (channelInfo_null ch dir N).
    eexists. split; [reflexivity|]. now destruct ch.
  - rewrite (readChannelInfo_read zip dir ch R N).
    destruct (channelInfo_ok ch dir N) as (v & _ & ->).
    eexists. split; reflexivity.
Qed.

End Channel.

Section ChannelSamples.

Import Js Terms.

Lemma readChannelInfo_fallback_witness :
  Zip.file [] (channel_path "42") = None /\
  Messages.readChannelInfo Sample.parse [] "42" =
  Ok {| Messages.ch_id := VStr "42";
        Messages.ch_name := VStr "DM 42";
        Messages.ch_type := VStr "";
        Messages.ch_is_dm := true;
        Messages.ch_guild := VNull |}.
Proof.
  split; [reflexivity|].
  apply (readChannelInfo_fallback Sample.parse [] "42"). left. reflexivity.
Defined.

(** C3, as stated, fails: with no [channel.json] the type of the
    fallback record is the empty string, not unset. *)
Lemma readChannelInfo_fallback_counterexample :
  Messages.readJson Sample.parse [] (channel_path "42")
  = Throw (FileNotFound (channel_path "42")) /\
  Messages.readChannelInfo Sample.parse [] "42" <> Ok (Spec.fallback_record "42") /\
  (exists info,
      Messages.readChannelInfo Sample.parse [] "42" = Ok info /\
      Messages.ch_type info = VStr "" /\ Messages.ch_type info <> VUndef).
Proof.
  split; [reflexivity|]. split; [discriminate|].
  eexists. split; [reflexivity|]. split; [reflexivity | discriminate].
Qed.

Lemma readChannelInfo_is_dm_witness :
  Messages.readJson Sample.parse (Sample.channel_archive "42" Sample.alice_text)
                    (channel_path "42") = Ok Sample.alice /\
  nullish Sample.alice = false /\
  exists info,
    Messages.readChannelInfo Sample.parse
      (Sample.channel_archive "42" Sample.alice_text) "42" = Ok info /\
    (Messages.ch_is_dm info = true <->
     absent_or_falsy (field Sample.alice "guild_id") /\
     (is_number (field Sample.alice "type") 1 \/
      is_number (field Sample.alice "type") 3 \/
      has_length (field Sample.alice "recipients"))).
Proof.
  split; [reflexivity|]. split; [reflexivity|].
  apply (readChannelInfo_is_dm Sample.parse); reflexivity.
Defined.

(** C4, as stated, fails.  The record [{"guild_id":0,"type":1}] has a
    guild_id field, and [{"recipients":"ab"}] has neither a DM type code
    nor a list of recipients: the rule of the specification makes both
    guild channels, and the code makes both direct messages. *)
Lemma readChannelInfo_is_dm_counterexample :
  (Messages.readJson Sample.parse (Sample.channel_archive "42" Sample.zero_guild_text)
                     (channel_path "42") = Ok Sample.zero_guild /\
   has_field Sample.zero_guild "guild_id" = true /\
   Spec.is_direct_message Sample.zero_guild = false /\
   exists info,
     Messages.readChannelInfo Sample.parse
       (Sample.channel_archive "42" Sample.zero_guild_text) "42" = Ok info /\
     Messages.ch_is_dm info = true) /\
  (Messages.readJson Sample.parse
     (Sample.channel_archive "42" Sample.text_recipients_text)
     (channel_path "42") = Ok Sample.text_recipients /\
   is_list (field Sample.text_recipients "recipients") = false /\
   Spec.is_direct_message Sample.text_recipients = false /\
   exists info,
     Messages.readChannelInfo Sample.parse
       (Sample.channel_archive "42" Sample.text_recipients_text) "42" = Ok info /\
     Messages.ch_is_dm info = true).
Proof.
  split; repeat (split; [reflexivity|]); eexists; split; reflexivity.
Qed.

Lemma readChannelInfo_name_witness :
  Messages.readJson Sample.parse (Sample.channel_archive "42" Sample.alice_text)
                    (channel_path "42") = Ok Sample.alice /\
  has_field Sample.alice "name" = false /\
  exists info,
    Messages.readChannelInfo Sample.parse
      (Sample.channel_archive "42" Sample.alice_text) "42" = Ok info /\
    Messages.ch_name info = VStr "alice".
Proof.
  split; [reflexivity|]. split; [reflexivity|].
  apply (readChannelInfo_name Sample.parse
           (Sample.channel_archive "42" Sample.alice_text) "42" Sample.alice).
  reflexivity.
Defined.

(** C5, as stated, fails: in [{"recipients":[{"username":""}]}] the
    username of the first recipient is present, and empty; the
    specification's order resolves the name to it, the code to the
    synthetic label. *)
Lemma readChannelInfo_name_counterexample :
  Messages.readJson Sample.parse (Sample.channel_archive "42" Sample.nameless_text)
                    (channel_path "42") = Ok Sample.nameless /\
  has_field (first (field Sample.nameless "recipients")) "username" = true /\
  Spec.display_name Sample.nameless "42" = VStr "" /\
  exists info,
    Messages.readChannelInfo Sample.parse
      (Sample.channel_archive "42" Sample.nameless_text) "42" = Ok info /\
    Messages.ch_name info = VStr "DM 42".
Proof.
  repeat (split; [reflexivity|]). eexists. split; reflexivity.
Qed.

End ChannelSamples.

(* ===================================================================== *)
(** ** The message log parser                                            *)
(* ===================================================================== *)

Section MessageLog.

Import Js Terms.

Variable JSON_parse : string -> option value.

Lemma coalesce_resolve (m : value) (capitalized lowercase : string) :
  nullish m = false ->
  capitalized <> "length" -> lowercase <> "length" ->
  coalesce (coalesce (get m capitalized) (get m lowercase)) (Ok (VStr ""))
  = Ok (resolve m capitalized lowercase).
Proof.
  intros N K1 K2. unfold coalesce, resolve.
  rewrite (get_field m capitalized N K1), (get_field m lowercase N K2).
  cbn [bind].
  destruct (nullish (field m capitalized)) eqn:E1; cbn [bind negb].
  - destruct (nullish (field m lowercase)) eqn:E2; cbn [bind negb];
      now rewrite ?E2.
  - now rewrite E1.
Qed.

Lemma json_message_ok (m : value) :
  nullish m = false -> Messages.json_message m = Ok (normalize m).
Proof.
  intros N. unfold Messages.json_message.
  rewrite !(coalesce_resolve m _ _ N) by discriminate. reflexivity.
Qed.

Lemma json_message_null (m : value) :
  nullish m = true -> Messages.json_message m = Throw TypeError.
Proof. now destruct m. Qed.

Lemma mapM_ok {A B : Type} (f : A -> result B) (g : A -> B) (l : list A) :
  Forall (fun a => f a = Ok (g a)) l -> mapM f l = Ok (map g l).
Proof.
  induction 1 as [|a l Ha _ IH]; simpl; [reflexivity|].
  now rewrite Ha, IH.
Qed.

Lemma readJson_file (zip : Zip.archive) (path : string) (v : value) :
  Messages.readJson JSON_parse zip path = Ok v ->
  exists f, Zip.file zip path = Some f.
Proof.
  unfold Messages.readJson.
  destruct (Zip.file zip path) as [f|]; [now exists f | discriminate].
Qed.

(** A JSON log of records, none of them null, is read record by record. *)
Lemma readMessages_json (zip : Zip.archive) (dir : string) (records : list value) :
  Messages.readJson JSON_parse zip (json_path dir) = Ok (VArr records) ->
  Forall (fun m => nullish m = false) records ->
  Messages.readMessages JSON_parse zip dir = Ok (map normalize records).
Proof.
  intros R N. unfold Messages.readMessages. fold (json_path dir).
  destruct (readJson_file _ _ _ R) as [f ->]. rewrite R. cbn [bind].
  unfold Messages.array_map. apply mapM_ok.
  eapply Forall_impl; [|exact N]. intros m. apply json_message_ok.
Qed.

Lemma resolve_resolved (m : value) (capitalized lowercase : string) :
  resolved m capitalized lowercase (resolve m capitalized lowercase).
Proof.
  unfold resolved, resolve.
  destruct (nullish (field m capitalized)) eqn:E1; cbn [negb].
  - destruct (nullish (field m lowercase)) eqn:E2; cbn [negb].
    + repeat split; try reflexivity; discriminate.
    + repeat split; try assumption; try discriminate.
      intros _ [H|H]; [discriminate | exact H].
  - repeat split; try assumption; try discriminate.
    intros [H|H] _; [discriminate | exact H].
Qed.

Lemma resolve_precedence (m : value) (capitalized lowercase : string) :
  precedence m capitalized lowercase (resolve m capitalized lowercase).
Proof.
  unfold precedence, resolve. repeat split.
  - now intros ->.
  - now intros -> ->.
  - now intros -> ->.
Qed.

(** On a record whose keys, where present, do not hold null, the order is
    the one of the specification's wording. *)
Lemma resolve_agrees (m : value) (capitalized lowercase : string) :
  (has_field m capitalized = true -> nullish (field m capitalized) = false) ->
  (has_field m lowercase = true -> nullish (field m lowercase) = false) ->
  resolve m capitalized lowercase = Spec.resolve_by_key m capitalized lowercase.
Proof.
  unfold resolve, Spec.resolve_by_key, field, has_field.
  destruct (lookup capitalized (fields m)) as [v|]; simpl.
  - intros H _. now rewrite (H eq_refl).
  - intros _ H.
    destruct (lookup lowercase (fields m)) as [w|]; simpl in *;
      [now rewrite (H eq_refl) | reflexivity].
Qed.

(** C6, as amended.  In a JSON log that is an array of records, none of
    them null, every message field of every record is resolved from the
    capitalized key first and the lowercase key second: the capitalized
    key wins whenever its value is not null, whatever the lowercase key
    holds; a capitalized key that is absent or null gives way to the
    lowercase key; and the field is the empty string when that one is
    absent or null as well. *)
Theorem readMessages_precedence (zip : Zip.archive) (dir : string)
        (records : list value) :
  Messages.readJson JSON_parse zip (json_path dir) = Ok (VArr records) ->
  Forall (fun m => nullish m = false) records ->
  exists msgs,
    Messages.readMessages JSON_parse zip dir = Ok msgs /\
    Forall2 (fun m out =>
               precedence m "ID" "id" (Messages.msg_id out) /\
               precedence m "Timestamp" "timestamp" (Messages.msg_timestamp out) /\
               precedence m "Contents" "content" (Messages.msg_content out) /\
               precedence m "Attachments" "attachments"
                          (Messages.msg_attachments out))
            records msgs.
Proof.
  intros R N. exists (map normalize records).
  split; [now apply readMessages_json|].
  clear R N. induction records as [|m t IH]; simpl; constructor; [|exact IH].
  repeat split; apply resolve_precedence.
Qed.

Lemma csv_message_ok (props : list (string * value)) :
  Messages.csv_message (VObj props) = Ok (from_csv (VObj props)).
Proof. reflexivity. Qed.

Lemma parseCsv_records (text : string) (record : value) :
  In record (Messages.parseCsv text) ->
  exists props, record = VObj props /\
                forall h, ~ In h (csv_header text) -> lookup h props = None.
Proof.
  rewrite parseCsv_rows, in_map_iff. intros (line & <- & _).
  eexists. split; [reflexivity|].
  intros h H. now rewrite assign_columns_absent.
Qed.

Lemma readMessages_csv (zip : Zip.archive) (dir : string) (f : Zip.entry)
      (text : string) :
  Zip.file zip (json_path dir) = None ->
  Zip.file zip (csv_path dir) = Some f ->
  Zip.content f = Some text ->
  Messages.readMessages JSON_parse zip dir
  = Ok (map from_csv (Messages.parseCsv text)).
Proof.
  intros J C T. unfold Messages.readMessages.
  fold (json_path dir). fold (csv_path dir). rewrite J, C.
  unfold Zip.async_string. rewrite T. cbn [bind].
  apply mapM_ok. apply Forall_forall. intros record H.
  destruct (parseCsv_records text record H) as (props & -> & _).
  apply csv_message_ok.
Qed.

(** C10, as amended.  In a JSON log that is an array of records, none of
    them null, no output field of any record is ever unset: a field is
    the empty string when both of its keys are absent or null; it is a
    string whenever each of its keys is absent, null or a string; and the
    value of a key that is not null, a number for instance, is handed on
    as it is, the capitalized key first.  On the CSV path a field whose
    header column is absent is unset. *)
Theorem readMessages_never_unset :
  (forall zip dir records,
      Messages.readJson JSON_parse zip (json_path dir) = Ok (VArr records) ->
      Forall (fun m => nullish m = false) records ->
      exists msgs,
        Messages.readMessages JSON_parse zip dir = Ok msgs /\
        Forall2 (fun m out =>
                   resolved m "ID" "id" (Messages.msg_id out) /\
                   resolved m "Timestamp" "timestamp" (Messages.msg_timestamp out) /\
                   resolved m "Contents" "content" (Messages.msg_content out) /\
                   resolved m "Attachments" "attachments"
                            (Messages.msg_attachments out))
                records msgs) /\
  (forall zip dir f text,
      Zip.file zip (json_path dir) = None ->
      Zip.file zip (csv_path dir) = Some f ->
      Zip.content f = Some text ->
      exists msgs,
        Messages.readMessages JSON_parse zip dir = Ok msgs /\
        List.length msgs = List.length (csv_rows text) /\
        forall out, In out msgs ->
          (~ In "ID" (csv_header text) -> Messages.msg_id out = VUndef) /\
          (~ In "Timestamp" (csv_header text) -> Messages.msg_timestamp out = VUndef) /\
          (~ In "Contents" (csv_header text) -> Messages.msg_content out = VUndef) /\
          (~ In "Attachments" (csv_header text) ->
           Messages.msg_attachments out = VUndef)).
Proof.
  split.
  - intros zip dir records R N. exists (map normalize records).
    split; [now apply readMessages_json|].
    clear R N. induction records as [|m t IH]; simpl; constructor; [|exact IH].
    repeat split; apply resolve_resolved.
  - intros zip dir f text J C T. exists (map from_csv (Messages.parseCsv text)).
    split; [now apply readMessages_csv with f|].
    split; [now rewrite length_map, parseCsv_rows, length_map|].
    intros out H. apply in_map_iff in H. destruct H as (record & <- & H).
    destruct (parseCsv_records text record H) as (props & -> & A).
    unfold from_csv, field; cbn [fields Messages.msg_id Messages.msg_timestamp
                                   Messages.msg_content Messages.msg_attachments].
    repeat split; intros Hh; now rewrite (A _ Hh).
Qed.

End MessageLog.

Section MessageSamples.

Import Js Terms.

Lemma readMessages_precedence_witness :
  Messages.readJson Sample.parse (Sample.json_log "42" Sample.mixed_text)
                    (json_path "42") = Ok Sample.mixed /\
  exists msgs,
    Messages.readMessages Sample.parse (Sample.json_log "42" Sample.mixed_text) "42"
    = Ok msgs /\
    Forall2 (fun m out =>
               precedence m "ID" "id" (Messages.msg_id out) /\
               precedence m "Timestamp" "timestamp" (Messages.msg_timestamp out) /\
               precedence m "Contents" "content" (Messages.msg_content out) /\
               precedence m "Attachments" "attachments" (Messages.msg_attachments out))
            [VObj [("ID", VStr "9"); ("content", VStr "hi")]] msgs.
Proof.
  split; [reflexivity|].
  apply (readMessages_precedence Sample.parse).
  - reflexivity.
  - repeat constructor.
Defined.

(** The record [{"ID":"9","content":"hi"}] resolves to id 9 and content
    hi. *)
Example readMessages_mixed_casing :
  Messages.readMessages Sample.parse (Sample.json_log "42" Sample.mixed_text) "42"
  = Ok [ {| Messages.msg_id := VStr "9";
            Messages.msg_timestamp := VStr "";
            Messages.msg_content := VStr "hi";
            Messages.msg_attachments := VStr "" |} ].
Proof. reflexivity. Qed.

(** C6, as stated, fails: in [{"ID":null,"id":"5"}] both keys exist, and
    the lowercase one is taken.  And the log [[null,{"ID":"1"}]] is
    rejected as a whole: none of its records is resolved. *)
Lemma readMessages_precedence_counterexample :
  (Messages.readJson Sample.parse (Sample.json_log "42" Sample.null_id_text)
                     (json_path "42") = Ok Sample.null_id /\
   (forall m, In m [VObj [("ID", VNull); ("id", VStr "5")]] ->
              has_field m "ID" = true /\ has_field m "id" = true /\
              Spec.resolve_by_key m "ID" "id" = VNull) /\
   exists out,
     Messages.readMessages Sample.parse (Sample.json_log "42" Sample.null_id_text) "42"
     = Ok [out] /\
     Messages.msg_id out = VStr "5") /\
  (Messages.readJson Sample.parse_null_record
     (Sample.json_log "42" Sample.null_record_text) (json_path "42")
   = Ok (VArr [VNull; VObj [("ID", VStr "1")]]) /\
   Messages.readMessages Sample.parse_null_record
     (Sample.json_log "42" Sample.null_record_text) "42" = Throw TypeError).
Proof.
  split.
  - split; [reflexivity|]. split.
    + intros m [<-|[]]. repeat split; reflexivity.
    + eexists. split; reflexivity.
  - split; reflexivity.
Qed.

Lemma readMessages_never_unset_witness :
  Messages.readJson Sample.parse (Sample.json_log "42" Sample.mixed_text)
                    (json_path "42") = Ok Sample.mixed /\
  exists msgs,
    Messages.readMessages Sample.parse (Sample.json_log "42" Sample.mixed_text) "42"
    = Ok msgs /\
    Forall2 (fun m out =>
               resolved m "ID" "id" (Messages.msg_id out) /\
               resolved m "Timestamp" "timestamp" (Messages.msg_timestamp out) /\
               resolved m "Contents" "content" (Messages.msg_content out) /\
               resolved m "Attachments" "attachments" (Messages.msg_attachments out))
            [VObj [("ID", VStr "9"); ("content", VStr "hi")]] msgs.
Proof.
  split; [reflexivity|].
  apply (proj1 (readMessages_never_unset Sample.parse)).
  - reflexivity.
  - repeat constructor.
Defined.

(** A CSV log without an Attachments column: the attachments of its
    messages are unset. *)
Example readMessages_csv_missing_column :
  Messages.readMessages Sample.parse
    (Sample.csv_log "42" ("ID,Timestamp,Contents" ++ Sample.LF ++ "1,2021-01-01,Hello"))
    "42"
  = Ok [ {| Messages.msg_id := VStr "1";
            Messages.msg_timestamp := VStr "2021-01-01";
            Messages.msg_content := VStr "Hello";
            Messages.msg_attachments := VUndef |} ].
Proof. reflexivity. Qed.

(** C10, as stated, fails: the record [{"ID":9,"Contents":"hi"}] yields
    the number 9 as id, which is not a string.  And the log
    [[null,{"ID":"1"}]] yields no output record at all: reading it fails
    on the null record. *)
Lemma readMessages_never_unset_counterexample :
  (Messages.readJson Sample.parse (Sample.json_log "42" Sample.numeric_id_text)
                     (json_path "42") = Ok Sample.numeric_id /\
   exists out,
     Messages.readMessages Sample.parse
       (Sample.json_log "42" Sample.numeric_id_text) "42" = Ok [out] /\
     Messages.msg_id out = VNum 9 /\
     is_string (Messages.msg_id out) = false /\
     all_strings out = false) /\
  (Messages.readJson Sample.parse_null_record
     (Sample.json_log "42" Sample.null_record_text) (json_path "42")
   = Ok Sample.null_record /\
   In VNull [VNull; VObj [("ID", VStr "1")]] /\
   forall msgs,
     Messages.readMessages Sample.parse_null_record
       (Sample.json_log "42" Sample.null_record_text) "42" <> Ok msgs).
Proof.
  split.
  - split; [reflexivity|]. eexists. repeat split; reflexivity.
  - split; [reflexivity|]. split; [now left|]. intros msgs. discriminate.
Qed.

End MessageSamples.

(* ===================================================================== *)
(** ** The account extractor                                             *)
(* ===================================================================== *)

Section Profile.

Import Js Terms.

Variable JSON_parse : string -> option value.

Lemma or_else_default (v d : value) :
  or_else (Ok v) (Ok d) = Ok (if truthy v then v else d).
Proof. unfold or_else. cbn [bind]. now destruct (truthy v). Qed.

Lemma parseUser_ok (zip : Zip.archive) (user : value) :
  Account.readJson JSON_parse zip "Account/user.json" = Ok user ->
  nullish user = false ->
  Account.parseUser JSON_parse zip =
  Ok {| Account.id := field user "id";
        Account.username := field user "username";
        Account.discriminator := field user "discriminator";
        Account.globalName :=
          if truthy (field user "global_name") then field user "global_name"
          else VNull;
        Account.email := field user "email";
        Account.verified := field user "verified";
        Account.phone := field user "phone";
        Account.premiumUntil := field user "premium_until";
        Account.flags :=
          if truthy (field user "flags") then field user "flags" else VArr [] |}.
Proof.
  intros R N. unfold Account.parseUser. rewrite R. cbn [bind].
  rewrite !(get_field user _ N) by discriminate.
  rewrite !or_else_default. reflexivity.
Qed.

(** C8, as amended.  The normalized flags field is the flags value of
    the profile whenever that value counts as true, so whenever it is a
    sequence, and also when it is any other such value (a number other
    than 0, a non-empty string, a record); it is the empty sequence when
    the field is absent or counts as false (null, false, 0, the empty
    string). *)
Theorem parseUser_flags (zip : Zip.archive) (user : value) :
  Account.readJson JSON_parse zip "Account/user.json" = Ok user ->
  nullish user = false ->
  exists account,
    Account.parseUser JSON_parse zip = Ok account /\
    (is_list (field user "flags") = true ->
     Account.flags account = field user "flags") /\
    (absent_or_falsy (field user "flags") -> Account.flags account = VArr []) /\
    (~ absent_or_falsy (field user "flags") ->
     Account.flags account = field user "flags").
Proof.
  intros R N. rewrite (parseUser_ok zip user R N).
  eexists. split; [reflexivity|]. cbn [Account.flags]. repeat split.
  - intros L. destruct (field user "flags"); try discriminate. reflexivity.
  - intros F. apply truthy_false_iff in F. now rewrite F.
  - intros F. apply truthy_true_iff in F. now rewrite F.
Qed.

End Profile.

Section ProfileSamples.

Import Js Terms.

Lemma parseUser_flags_witness :
  Account.readJson Sample.parse Sample.account_archive "Account/user.json"
  = Ok Sample.user /\
  nullish Sample.user = false /\
  exists account,
    Account.parseUser Sample.parse Sample.account_archive = Ok account /\
    (is_list (field Sample.user "flags") = true ->
     Account.flags account = field Sample.user "flags") /\
    (absent_or_falsy (field Sample.user "flags") -> Account.flags account = VArr []) /\
    (~ absent_or_falsy (field Sample.user "flags") ->
     Account.flags account = field Sample.user "flags").
Proof.
  split; [reflexivity|]. split; [reflexivity|].
  apply (parseUser_flags Sample.parse); reflexivity.
Defined.

(** C8, as stated, fails: the flags of
    [{"id":"1","username":"u","flags":64}] are a number, not a sequence,
    and the normalized flags are that number, not the empty sequence. *)
Lemma parseUser_flags_counterexample :
  Account.readJson Sample.parse Sample.account_archive "Account/user.json"
  = Ok Sample.user /\
  is_list (field Sample.user "flags") = false /\
  Spec.flags_or_empty Sample.user = VArr [] /\
  exists account,
    Account.parseUser Sample.parse Sample.account_archive = Ok account /\
    Account.flags account = VNum 64 /\
    Account.flags account <> VArr [].
Proof.
  repeat (split; [reflexivity|]). eexists.
  split; [reflexivity|]. split; [reflexivity | discriminate].
Qed.

End ProfileSamples.

Section Applications.

Import Js Terms.

Variable JSON_parse : string -> option value.

Lemma callback_call_fold (args : list (string * Zip.entry)) (r : Account.run) :
  fold_left (fun r arg => Account.callback_call (fst arg) (snd arg) r) args r
  = Account.mkRun
      (Account.result_array r)
      (Account.suspended r ++
       map (fun arg => ("Account/applications/" ++ fst arg)%string)
           (filter Account.is_application_file args))%list.
Proof.
  revert r; induction args as [|a args IH]; intros r; simpl.
  - rewrite app_nil_r. now destruct r.
  - rewrite IH. unfold Account.callback_call, Account.is_application_file.
    destruct (negb (Zip.dir (snd a)) && endsWith (fst a) "application.json");
      simpl; [now rewrite <- app_assoc | reflexivity].
Qed.

(** The enumeration pushes nothing and leaves one suspended callback for
    every [application.json] under the folder. *)
Lemma enumerate_spec (zip : Zip.archive) :
  Account.enumerate zip
  = Account.mkRun []
      (map (fun arg => "Account/applications/" ++ fst arg)
           (filter Account.is_application_file (Zip.forEach_args Account.apps_root zip))).
Proof.
  unfold Account.enumerate. now rewrite callback_call_fold.
Qed.

(** Whatever the archive, the array is empty when it is returned. *)
Lemma parseApplications_returns_empty (zip : Zip.archive) :
  fst (Account.parseApplications zip) = Ok [].
Proof.
  unfold Account.parseApplications. now rewrite enumerate_spec.
Qed.

Lemma callback_resume_suspended (zip : Zip.archive) (path : string) (r : Account.run) :
  Account.suspended (Account.callback_resume JSON_parse zip path r)
  = Account.suspended r.
Proof.
  unfold Account.callback_resume.
  now destruct (Account.read_application JSON_parse zip path).
Qed.

Lemma callback_resume_result (zip : Zip.archive) (path : string) (r : Account.run) :
  Account.result_array (Account.callback_resume JSON_parse zip path r)
  = match Account.read_application JSON_parse zip path with
    | Ok app => (Account.result_array r ++ [app])%list
    | Throw _ => Account.result_array r
    end.
Proof.
  unfold Account.callback_resume.
  now destruct (Account.read_application JSON_parse zip path).
Qed.

Lemma step_owes (zip : Zip.archive) (r r' : Account.run) (app : Account.application) :
  Account.step JSON_parse zip r r' -> Account.owes JSON_parse zip r app -> Account.owes JSON_parse zip r' app.
Proof.
  intros S. destruct S as [r before path after E]. unfold Account.owes.
  rewrite callback_resume_suspended, callback_resume_result. simpl.
  intros [H|(p & Hp & Rp)].
  - left. destruct (Account.read_application JSON_parse zip path);
      [apply in_or_app; now left | assumption].
  - rewrite E in Hp. apply in_app_or in Hp. destruct Hp as [Hp|[<-|Hp]].
    + right. exists p. split; [apply in_or_app; now left | assumption].
    + left. rewrite Rp. apply in_or_app. right. now left.
    + right. exists p. split; [apply in_or_app; now right | assumption].
Qed.

(** A failed read does not keep the others from being collected: in
    whatever order the suspended callbacks resume, once all have, the
    array holds the record of every read that succeeded. *)
Lemma steps_collect (zip : Zip.archive) (r r' : Account.run) :
  Account.steps JSON_parse zip r r' ->
  Account.suspended r' = [] ->
  forall path app,
    In path (Account.suspended r) ->
    Account.read_application JSON_parse zip path = Ok app ->
    In app (Account.result_array r').
Proof.
  intros S Done path app Hp Rp.
  assert (O : Account.owes JSON_parse zip r' app).
  { assert (O : Account.owes JSON_parse zip r app) by (right; now exists path).
    clear Hp Rp Done. induction S as [r|r1 r2 r3 S1 _ IH]; [exact O|].
    apply IH. now apply step_owes with r1. }
  destruct O as [H|(p & Hp' & _)]; [exact H|].
  rewrite Done in Hp'. destruct Hp'.
Qed.

(** The callbacks can all resume: in the order of their calls, for one. *)
Lemma steps_in_order (zip : Zip.archive) (r : Account.run) :
  Account.steps JSON_parse zip r (Account.settle_in_order JSON_parse zip r) /\
  Account.suspended (Account.settle_in_order JSON_parse zip r) = [].
Proof.
  unfold Account.settle_in_order. destruct r as [res pend]. simpl.
  revert res; induction pend as [|p pend IH]; intros res; simpl.
  - split; [constructor | reflexivity].
  - assert (E : Account.callback_resume JSON_parse zip p (Account.mkRun res [])
                = Account.mkRun
                    (Account.result_array
                       (Account.callback_resume JSON_parse zip p
                          (Account.mkRun res pend))) []).
    { unfold Account.callback_resume.
      now destruct (Account.read_application JSON_parse zip p). }
    rewrite E.
    destruct (IH (Account.result_array
                    (Account.callback_resume JSON_parse zip p
                       (Account.mkRun res pend)))) as [S D].
    split; [|exact D].
    eapply Account.steps_cons; [|exact S].
    pose proof (Account.step_resume JSON_parse zip (Account.mkRun res (p :: pend))
                  [] p pend eq_refl) as St.
    simpl in St.
    replace (Account.mkRun
               (Account.result_array
                  (Account.callback_resume JSON_parse zip p (Account.mkRun res pend)))
               pend)
      with (Account.callback_resume JSON_parse zip p (Account.mkRun res pend));
      [exact St|].
    unfold Account.callback_resume.
    now destruct (Account.read_application JSON_parse zip p).
Qed.

End Applications.

Section ApplicationSamples.

Import Js Terms.

(** C1.  Whatever the archive, the list is returned empty while the read
    of every [application.json] under the folder is still suspended.  On
    the archive with one connected application, the record of its
    well-formed [application.json] reaches the array only when the
    suspended callback resumes, after the return. *)
Theorem parseApplications_returns_before_reads :
  (forall zip,
      fst (Account.parseApplications zip) = Ok [] /\
      Account.suspended (snd (Account.parseApplications zip))
      = map (fun arg => "Account/applications/" ++ fst arg)
            (filter Account.is_application_file
                    (Zip.forEach_args Account.apps_root zip))) /\
  fst (Account.parseApplications Sample.one_application) = Ok [] /\
  Account.suspended (snd (Account.parseApplications Sample.one_application))
  = [Sample.app_path "7"] /\
  Account.read_application Sample.parse Sample.one_application (Sample.app_path "7")
  = Ok Sample.app_record /\
  Account.result_array
    (Account.settle_in_order Sample.parse Sample.one_application
       (snd (Account.parseApplications Sample.one_application)))
  = [Sample.app_record].
Proof.
  split.
  - intros zip. unfold Account.parseApplications. cbn [fst snd].
    rewrite enumerate_spec. split; reflexivity.
  - repeat split; reflexivity.
Qed.

(** C2.  On the archive with a well-formed and a malformed
    [application.json], the list is returned empty, without the record of
    the well-formed application, while both reads are suspended.  The
    failure of the second read stays with its own callback: in whatever
    order the two resume, once both have, the array holds the record of
    the first. *)
Theorem parseApplications_mixed_returns_empty :
  fst (Account.parseApplications Sample.two_applications) = Ok [] /\
  Account.suspended (snd (Account.parseApplications Sample.two_applications))
  = [Sample.app_path "7"; Sample.app_path "8"] /\
  Account.read_application Sample.parse Sample.two_applications (Sample.app_path "7")
  = Ok Sample.app_record /\
  Account.read_application Sample.parse Sample.two_applications (Sample.app_path "8")
  = Throw SyntaxError /\
  Account.result_array
    (Account.settle_in_order Sample.parse Sample.two_applications
       (snd (Account.parseApplications Sample.two_applications)))
  = [Sample.app_record] /\
  forall r,
    Account.steps Sample.parse Sample.two_applications
                  (snd (Account.parseApplications Sample.two_applications)) r ->
    Account.suspended r = [] ->
    In Sample.app_record (Account.result_array r).
Proof.
  repeat (split; [reflexivity|]).
  intros r S Done.
  apply (steps_collect Sample.parse Sample.two_applications _ r S Done
                       (Sample.app_path "7")).
  - left. reflexivity.
  - reflexivity.
Qed.

Lemma parseApplications_mixed_returns_empty_witness :
  Account.steps Sample.parse Sample.two_applications
    (snd (Account.parseApplications Sample.two_applications))
    (Account.settle_in_order Sample.parse Sample.two_applications
       (snd (Account.parseApplications Sample.two_applications))) /\
  Account.suspended
    (Account.settle_in_order Sample.parse Sample.two_applications
       (snd (Account.parseApplications Sample.two_applications))) = [] /\
  In Sample.app_record
     (Account.result_array
        (Account.settle_in_order Sample.parse Sample.two_applications
           (snd (Account.parseApplications Sample.two_applications)))).
Proof.
  destruct (steps_in_order Sample.parse Sample.two_applications
              (snd (Account.parseApplications Sample.two_applications))) as [S D].
  split; [exact S|]. split; [exact D|].
  destruct parseApplications_mixed_returns_empty as (_ & _ & _ & _ & _ & H).
  exact (H _ S D).
Defined.

End ApplicationSamples.

(* ===================================================================== *)
(** ** Sorted channel directories                                        *)
(* ===================================================================== *)

Section Sorting.

Import Js Terms.

Lemma ascii_compare_lt_trans (a b c : ascii) :
  Ascii.compare a b = Lt -> Ascii.compare b c = Lt -> Ascii.compare a c = Lt.
Proof.
  unfold Ascii.compare. rewrite !N.compare_lt_iff. apply N.lt_trans.
Qed.

Lemma ascii_compare_refl (a : ascii) : Ascii.compare a a = Eq.
Proof. unfold Ascii.compare. apply N.compare_refl. Qed.

Lemma string_leb_trans (s1 s2 s3 : string) :
  String.leb s1 s2 = true -> String.leb s2 s3 = true -> String.leb s1 s3 = true.
Proof.
  unfold String.leb. revert s2 s3.
  induction s1 as [|a s1 IH]; intros [|b s2] [|c s3]; simpl;
    try reflexivity; try discriminate.
  destruct (Ascii.compare a b) eqn:Eab; try discriminate.
  - apply Ascii.compare_eq_iff in Eab. subst b.
    destruct (Ascii.compare a c) eqn:Eac; try discriminate; try reflexivity.
    apply IH.
  - intros _.
    destruct (Ascii.compare b c) eqn:Ebc; try discriminate.
    + apply Ascii.compare_eq_iff in Ebc. subst c. now rewrite Eab.
    + now rewrite (ascii_compare_lt_trans a b c Eab Ebc).
Qed.

Lemma string_leb_refl (s : string) : String.leb s s = true.
Proof.
  unfold String.leb. induction s as [|a s IH]; simpl; [reflexivity|].
  now rewrite ascii_compare_refl.
Qed.

Lemma string_ltb_iff (s1 s2 : string) :
  String.ltb s1 s2 = true <-> String.leb s1 s2 = true /\ s1 <> s2.
Proof.
  unfold String.ltb, String.leb. destruct (String.compare s1 s2) eqn:E.
  - apply String.compare_eq_iff in E. split; [discriminate | intros [_ N]; contradiction].
  - split; [|reflexivity]. intros _. split; [reflexivity|].
    intros ->. pose proof (string_leb_refl s2) as R. unfold String.leb in R.
    rewrite String.compare_antisym in E.
    destruct (String.compare s2 s2); discriminate.
  - split; [discriminate | intros [H _]; discriminate].
Qed.

Lemma sort_insert_perm (x : string) (l : list string) :
  Permutation (x :: l) (sort_insert x l).
Proof.
  induction l as [|y t IH]; simpl; [reflexivity|].
  destruct (String.leb x y); [reflexivity|].
  rewrite perm_swap. now constructor.
Qed.

Lemma sort_perm (l : list string) : Permutation l (sort l).
Proof.
  induction l as [|x t IH]; simpl; [constructor|].
  rewrite <- sort_insert_perm. now constructor.
Qed.

Lemma sort_insert_ascending (x : string) (l : list string) :
  ascending l -> ascending (sort_insert x l).
Proof.
  unfold ascending. induction 1 as [|y t St IH Fa]; simpl.
  - repeat constructor.
  - destruct (String.leb x y) eqn:E.
    + constructor; [now constructor|]. constructor; [exact E|].
      eapply Forall_impl; [|exact Fa]. intros z. now apply string_leb_trans.
    + constructor; [exact IH|].
      assert (Hyx : String.leb y x = true)
        by (destruct (String.leb_total x y); congruence).
      apply Forall_forall. intros z Hz.
      apply (Permutation_in _ (Permutation_sym (sort_insert_perm x t))) in Hz.
      destruct Hz as [<-|Hz]; [exact Hyx|].
      rewrite Forall_forall in Fa. now apply Fa.
Qed.

Lemma sort_ascending (l : list string) : ascending (sort l).
Proof.
  induction l as [|x t IH]; simpl; [constructor | now apply sort_insert_ascending].
Qed.

Lemma ascending_strict (l : list string) :
  ascending l -> NoDup l ->
  StronglySorted (fun a b => String.ltb a b = true) l.
Proof.
  unfold ascending. induction 1 as [|y t St IH Fa]; intros N; [constructor|].
  inversion N as [|? ? Hy Nt]; subst.
  constructor; [now apply IH|].
  rewrite Forall_forall in *. intros z Hz. apply string_ltb_iff.
  split; [now apply Fa|]. intros ->. contradiction.
Qed.

(** X1.  [render] and [test] take the channels in strictly ascending order
    of their identifiers, and the sorted list holds the channels of the
    scan, each once. *)
Theorem sortedDirs_ascending (zip : Zip.archive) :
  StronglySorted (fun a b => String.ltb a b = true) (Messages.sortedDirs zip) /\
  Permutation (Messages.listChannelDirs zip) (Messages.sortedDirs zip) /\
  NoDup (Messages.sortedDirs zip).
Proof.
  unfold Messages.sortedDirs.
  pose proof (sort_perm (Messages.listChannelDirs zip)) as P.
  assert (N : NoDup (sort (Messages.listChannelDirs zip))).
  { apply (Permutation_NoDup P).
    unfold Messages.listChannelDirs.
    exact (proj1 (scan_fold _ [] (NoDup_nil _))). }
  split; [|split; assumption].
  apply ascending_strict; [apply sort_ascending | exact N].
Qed.

End Sorting.

(* ===================================================================== *)
(** ** More on the CSV parser                                            *)
(* ===================================================================== *)

Section CsvShape.

Import Js Terms.

Lemma obj_put_keys (k : string) (v : value) (props : list (string * value)) (h : string) :
  In h (map fst (obj_put k v props)) <-> h = k \/ In h (map fst props).
Proof.
  induction props as [|[k' v'] t IH]; simpl.
  - intuition.
  - destruct (String.eqb_spec k' k) as [->|N]; simpl.
    + intuition.
    + rewrite IH. intuition.
Qed.

Lemma obj_put_NoDup (k : string) (v : value) (props : list (string * value)) :
  NoDup (map fst props) -> NoDup (map fst (obj_put k v props)).
Proof.
  induction props as [|[k' v'] t IH]; simpl; intros N.
  - repeat constructor. intros [].
  - inversion N as [|? ? Hk Nt]; subst.
    destruct (String.eqb_spec k' k) as [->|Nk]; simpl.
    + now constructor.
    + constructor; [|now apply IH].
      rewrite obj_put_keys. intros [E|H]; [congruence | contradiction].
Qed.

Lemma obj_put_values (P : string * value -> Prop) (k : string) (v : value)
      (props : list (string * value)) :
  Forall P props -> P (k, v) -> Forall P (obj_put k v props).
Proof.
  intros F H. induction F as [|[k' v'] t Hkv F' IH]; simpl.
  - now constructor.
  - destruct (k' =? k); constructor; assumption.
Qed.

Lemma obj_set_keys (k : string) (v : value) (props : list (string * value)) (h : string) :
  In h (map fst (obj_set k v props))
  <-> (h = k /\ k <> "__proto__") \/ In h (map fst props).
Proof.
  unfold obj_set. destruct (String.eqb_spec k "__proto__") as [->|N].
  - intuition.
  - rewrite obj_put_keys. intuition.
Qed.

Lemma obj_set_NoDup (k : string) (v : value) (props : list (string * value)) :
  NoDup (map fst props) -> NoDup (map fst (obj_set k v props)).
Proof.
  unfold obj_set. destruct (k =? "__proto__"); [trivial | apply obj_put_NoDup].
Qed.

Lemma obj_set_values (P : string * value -> Prop) (k : string) (v : value)
      (props : list (string * value)) :
  Forall P props -> P (k, v) -> Forall P (obj_set k v props).
Proof.
  unfold obj_set. destruct (k =? "__proto__"); [trivial | apply obj_put_values].
Qed.

Lemma assign_columns_keys (headers : list string) (i : nat) (values : list string)
      (obj : list (string * value)) :
  (NoDup (map fst obj) ->
   NoDup (map fst (Messages.assign_columns headers i values obj))) /\
  forall h, In h (map fst (Messages.assign_columns headers i values obj)) <->
            (In h headers /\ h <> "__proto__") \/ In h (map fst obj).
Proof.
  revert i obj; induction headers as [|h0 t IH]; intros i obj; simpl.
  - split; [trivial | intuition].
  - destruct (IH (S i) (obj_set h0 (Messages.at_index values i) obj)) as [N I].
    split.
    + intros H. apply N. now apply obj_set_NoDup.
    + intros h. rewrite I, obj_set_keys. intuition; subst; intuition.
Qed.

Lemma parseCsv_record_shape (text : string) (record : value) :
  In record (Messages.parseCsv text) ->
  NoDup (keys record) /\
  (forall h, In h (keys record) <-> In h (csv_header text) /\ h <> "__proto__") /\
  (forall h, is_string (field record h) = true \/ field record h = VUndef).
Proof.
  rewrite parseCsv_rows, in_map_iff. intros (line & <- & _).
  unfold keys, fields.
  destruct (assign_columns_keys (csv_header text) 0 (split Messages.comma line) [])
    as [N I].
  split; [apply N; constructor|].
  split; [intros h; rewrite I; simpl; intuition|].
  intros h. unfold field, fields.
  assert (V : forall hs i obj,
             Forall (fun kv => is_string (snd kv) = true \/ snd kv = VUndef) obj ->
             Forall (fun kv => is_string (snd kv) = true \/ snd kv = VUndef)
                    (Messages.assign_columns hs i (split Messages.comma line) obj)).
  { induction hs as [|h0 t IH]; intros i obj F; simpl; [exact F|].
    apply IH. apply obj_set_values; [exact F|]. simpl.
    unfold Messages.at_index.
    destruct (nth_error (split Messages.comma line) i); [now left | now right]. }
  specialize (V (csv_header text) 0 [] (Forall_nil _)).
  destruct (lookup h (Messages.assign_columns (csv_header text) 0
                        (split Messages.comma line) [])) as [v|] eqn:L;
    [|now right].
  simpl. rewrite Forall_forall in V.
  assert (Hin : In (h, v) (Messages.assign_columns (csv_header text) 0
                             (split Messages.comma line) [])).
  { clear -L. induction (Messages.assign_columns (csv_header text) 0
                           (split Messages.comma line) []) as [|[k w] t IH];
      simpl in *; [discriminate|].
    destruct (String.eqb_spec k h) as [->|N].
    - injection L as ->. now left.
    - right. now apply IH. }
  exact (V _ Hin).
Qed.

(** X2.  Every record of a CSV log has exactly the names of the header row
    as its fields, the name [__proto__] apart, which defines no field; it
    has each name once, whatever the number of values of its line: values
    beyond the header are dropped, and a field holds a string or is
    unset. *)
Theorem parseCsv_record_fields (text : string) (record : value) :
  In record (Messages.parseCsv text) ->
  NoDup (keys record) /\
  (forall h, In h (keys record) <-> In h (csv_header text) /\ h <> "__proto__") /\
  (forall h, is_string (field record h) = true \/ field record h = VUndef).
Proof. apply parseCsv_record_shape. Qed.

Lemma cons_head_length (c : ascii) (l : list string) :
  l <> [] -> List.length (cons_head c l) = List.length l.
Proof. destruct l; [contradiction | reflexivity]. Qed.

Lemma split_lines_nonempty (s : string) : split_lines s <> [].
Proof.
  assert (C : forall c l, l <> [] -> cons_head c l <> [])
    by (intros c [|? ?] H; [contradiction | discriminate]).
  induction s as [|c s IH]; simpl; [discriminate|].
  destruct (Ascii.eqb c nl); [discriminate|].
  destruct (Ascii.eqb c cr); [|now apply C].
  destruct s as [|c' s']; [now apply C|].
  destruct (Ascii.eqb c' nl); [exact IH | now apply C].
Qed.

Lemma split_lines_length (s : string) :
  List.length (split_lines s) = S (count_char nl s).
Proof.
  induction s as [|c s IH]; [reflexivity|].
  cbn [split_lines count_char].
  destruct (Ascii.eqb c nl) eqn:E; [simpl; now rewrite IH|].
  assert (L : List.length (cons_head c (split_lines s)) = S (count_char nl s))
    by (rewrite cons_head_length; [exact IH | apply split_lines_nonempty]).
  destruct (Ascii.eqb c cr); [|exact L].
  destruct s as [|c' s']; [exact L|].
  destruct (Ascii.eqb c' nl); [exact IH | exact L].
Qed.

(** X3.  A CSV log yields as many records as its text, without the white
    space around it, has line feeds: none for an empty text, for white
    space and for a header row alone. *)
Theorem parseCsv_count (text : string) :
  List.length (Messages.parseCsv text) = count_char nl (trim text).
Proof.
  rewrite parseCsv_rows, length_map. unfold csv_rows, csv_lines.
  pose proof (split_lines_length (trim text)) as L.
  destruct (split_lines (trim text)); simpl in *; lia.
Qed.

Lemma trimStart_space (w s : string) :
  all_space w = true -> trimStart (w ++ s) = trimStart s.
Proof.
  induction w as [|c w IH]; simpl; [reflexivity|].
  intros H. apply andb_true_iff in H. destruct H as [Hc Hw].
  rewrite Hc. now apply IH.
Qed.

Lemma trimEnd_space (w : string) : all_space w = true -> trimEnd w = "".
Proof.
  induction w as [|c w IH]; simpl; [reflexivity|].
  intros H. apply andb_true_iff in H. destruct H as [Hc Hw].
  now rewrite (IH Hw), Hc.
Qed.

Lemma trimEnd_app_space (s w : string) :
  all_space w = true -> trimEnd (s ++ w) = trimEnd s.
Proof.
  intros H. induction s as [|c s IH]; simpl.
  - now apply trimEnd_space.
  - now rewrite IH.
Qed.

Lemma trimStart_app (s w : string) :
  trimStart (s ++ w) = trimStart s ++ w \/
  (trimStart s = "" /\ all_space s = true).
Proof.
  induction s as [|c s IH]; simpl.
  - right. now split.
  - destruct (is_space c); simpl; [exact IH | now left].
Qed.

Lemma trim_around (w1 w2 text : string) :
  all_space w1 = true -> all_space w2 = true ->
  trim (w1 ++ text ++ w2) = trim text.
Proof.
  intros H1 H2. unfold trim. rewrite (trimStart_space _ _ H1).
  destruct (trimStart_app text w2) as [->|[E A]].
  - now apply trimEnd_app_space.
  - rewrite E. simpl.
    assert (S : all_space (text ++ w2) = true).
    { clear E. induction text as [|c t IH]; simpl in *; [exact H2|].
      apply andb_true_iff in A. destruct A as [Hc Ht]. now rewrite Hc, IH. }
    assert (T : forall s, all_space s = true -> trimStart s = "").
    { induction s as [|c s IH]; simpl; [reflexivity|].
      intros H. apply andb_true_iff in H. destruct H as [Hc Hs]. now rewrite Hc, IH. }
    now rewrite (T _ S).
Qed.

(** X4.  White space around the text of a CSV log does not count: blank
    lines before the header row and line ends after the last row leave
    the records as they are. *)
Theorem parseCsv_around (w1 w2 text : string) :
  all_space w1 = true -> all_space w2 = true ->
  Messages.parseCsv (w1 ++ text ++ w2) = Messages.parseCsv text.
Proof.
  intros H1 H2. unfold Messages.parseCsv. now rewrite (trim_around _ _ _ H1 H2).
Qed.

End CsvShape.

(* ===================================================================== *)
(** ** More on the message log parser                                    *)
(* ===================================================================== *)

Section MessageLogErrors.

Import Js Terms.

Variable JSON_parse : string -> option value.

Lemma mapM_json_message (records : list value) :
  (Forall (fun m => nullish m = false) records /\
   mapM Messages.json_message records = Ok (map normalize records)) \/
  (Exists (fun m => nullish m = true) records /\
   mapM Messages.json_message records = Throw TypeError).
Proof.
  induction records as [|m t IH]; simpl.
  - left. split; [constructor | reflexivity].
  - destruct (nullish m) eqn:N.
    + right. split; [now constructor|].
      now rewrite (json_message_null m N).
    + rewrite (json_message_ok m N). cbn [bind].
      destruct IH as [[F E]|[X E]]; rewrite E; cbn [bind].
      * left. split; [now constructor | reflexivity].
      * right. split; [now apply Exists_cons_tl | reflexivity].
Qed.

(** X5.  [readMessages] fulfils in exactly three cases: the JSON log
    exists and parses to a list without a null record; or there is no
    JSON log and no CSV log (the result is then empty); or there is no
    JSON log and the CSV log can be read.  A JSON log that fails is never
    made up for by the CSV log beside it. *)
Theorem readMessages_fulfils (zip : Zip.archive) (dir : string) :
  (exists msgs, Messages.readMessages JSON_parse zip dir = Ok msgs) <->
  (exists records,
      Messages.readJson JSON_parse zip (json_path dir) = Ok (VArr records) /\
      Forall (fun m => nullish m = false) records) \/
  (Zip.file zip (json_path dir) = None /\
   (Zip.file zip (csv_path dir) = None \/
    exists f text, Zip.file zip (csv_path dir) = Some f /\ Zip.content f = Some text)).
Proof.
  unfold Messages.readMessages. fold (json_path dir). fold (csv_path dir).
  destruct (Zip.file zip (json_path dir)) as [j|] eqn:J.
  - destruct (Messages.readJson JSON_parse zip (json_path dir)) as [data|e] eqn:R;
      cbn [bind].
    + destruct data as [| |b|q|s|records|props]; simpl;
        try (split; [intros [? ?]; discriminate
                    | intros [(? & [=] & _)|[[=] _]]]).
      destruct (mapM_json_message records) as [[F E]|[X E]]; rewrite E.
      * split; [|intros _; eexists; reflexivity].
        intros _. left. exists records. now split.
      * split; [intros [? ?]; discriminate|].
        intros [(rs & [= <-] & F)|[[=] _]].
        apply Exists_exists in X. destruct X as (m & Hm & Nm).
        rewrite Forall_forall in F. rewrite (F m Hm) in Nm. discriminate.
    + split; [intros [? ?]; discriminate|].
      intros [(? & [=] & _)|[[=] _]].
  - split.
    + intros [msgs H]. right. split; [reflexivity|].
      destruct (Zip.file zip (csv_path dir)) as [f|]; [|now left].
      right. unfold Zip.async_string in H.
      destruct (Zip.content f) as [text|] eqn:T; [|discriminate].
      exists f, text. split; [reflexivity | exact T].
    + intros [(records & R & _)|[_ [C|(f & text & C & T)]]].
      * apply readJson_file in R. destruct R as [f R]. congruence.
      * rewrite C. eexists; reflexivity.
      * pose proof (readMessages_csv JSON_parse zip dir f text J C T) as E.
        unfold Messages.readMessages in E. fold (json_path dir) in E.
        fold (csv_path dir) in E. rewrite J in E. rewrite E. eexists; reflexivity.
Qed.

(** X6.  Under the header ID, Timestamp, Contents, Attachments the
    messages of a CSV log are the first four values of its rows, in row
    order, a missing value being unset.  Fields are not quoted: a comma
    inside a text moves the later values one place on. *)
Theorem readMessages_csv_rows (zip : Zip.archive) (dir : string) (f : Zip.entry)
        (text : string) :
  Zip.file zip (json_path dir) = None ->
  Zip.file zip (csv_path dir) = Some f ->
  Zip.content f = Some text ->
  csv_header text = ["ID"; "Timestamp"; "Contents"; "Attachments"] ->
  Messages.readMessages JSON_parse zip dir = Ok (map from_row (csv_rows text)).
Proof.
  intros J C T H.
  rewrite (readMessages_csv JSON_parse zip dir f text J C T).
  rewrite parseCsv_rows, H, map_map. reflexivity.
Qed.

End MessageLogErrors.

(* ===================================================================== *)
(** ** The channel list and the message table of [render]               *)
(* ===================================================================== *)

Section ChannelList.

Import Js Terms.

Variable JSON_parse : string -> option value.

(** X7.  The id and the type of a parsed channel record are those of the
    file, unset when the file has none: the directory name stands in for
    the id only in the fallback record.  The guild name is the name of
    the guild record, and null, never unset, when that is absent or
    null. *)
Theorem readChannelInfo_passes_fields (zip : Zip.archive) (dir : string) (ch : value) :
  Messages.readJson JSON_parse zip (channel_path dir) = Ok ch ->
  nullish ch = false ->
  exists info,
    Messages.readChannelInfo JSON_parse zip dir = Ok info /\
    Messages.ch_id info = field ch "id" /\
    Messages.ch_type info = field ch "type" /\
    (nullish (field (field ch "guild") "name") = true ->
     Messages.ch_guild info = VNull) /\
    (nullish (field (field ch "guild") "name") = false ->
     Messages.ch_guild info = field (field ch "guild") "name").
Proof.
  intros R N. rewrite (readChannelInfo_read JSON_parse zip dir ch R N).
  destruct (channelInfo_ok ch dir N) as (v & _ & ->).
  eexists. split; [reflexivity|]. cbn.
  repeat split; intros ->; reflexivity.
Qed.

Lemma display_name_truthy_counts (ch : value) (dir : string) :
  truthy (display_name_truthy ch dir) = true.
Proof.
  unfold display_name_truthy.
  destruct (truthy (field ch "name")) eqn:E1; [exact E1|].
  destruct (truthy (field (first (field ch "recipients")) "username")) eqn:E2;
    [exact E2|].
  destruct (truthy (field (field ch "recipient") "username")) eqn:E3; [exact E3|].
  reflexivity.
Qed.

(** What the resolver hands to the loop: the fallback record, or the
    record made of a channel record that is not null. *)
Lemma readChannelInfo_cases (zip : Zip.archive) (dir : string) :
  exists info,
    Messages.readChannelInfo JSON_parse zip dir = Ok info /\
    (((exists e, Messages.readJson JSON_parse zip (channel_path dir) = Throw e) \/
      (exists ch, Messages.readJson JSON_parse zip (channel_path dir) = Ok ch /\
                  nullish ch = true)) /\
     info = Messages.fallback dir
     \/
     exists ch, Messages.readJson JSON_parse zip (channel_path dir) = Ok ch /\
                nullish ch = false /\
                Messages.ch_name info = display_name_truthy ch dir).
Proof.
  destruct (Messages.readJson JSON_parse zip (channel_path dir)) as [ch|e] eqn:R.
  - destruct (nullish ch) eqn:N.
    + exists (Messages.fallback dir). split.
      * unfold Messages.readChannelInfo. fold (channel_path dir).
        rewrite R. cbn [bind]. now rewrite (channelInfo_null ch dir N).
      * left. split; [right; now exists ch | reflexivity].
    + rewrite (readChannelInfo_read JSON_parse zip dir ch R N).
      destruct (channelInfo_ok ch dir N) as (v & _ & ->).
      eexists. split; [reflexivity|]. right. exists ch. now repeat split.
  - exists (Messages.fallback dir).
    split; [now apply readChannelInfo_failed with e|].
    left. split; [left; now exists e | reflexivity].
Qed.

Lemma trim_synthetic (dir : string) : truthy (VStr (trim ("DM " ++ dir))) = true.
Proof.
  unfold trim. cbn [String.append trimStart is_space].
  change (is_space "D") with false. cbv iota.
  cbn [trimEnd]. destruct (trimEnd _); reflexivity.
Qed.

Lemma channelItems_stops (zip : Zip.archive) (before : list string) (dir : string)
      (after : list string) (e : error) :
  Forall (fun d => exists item, Messages.channelItem JSON_parse zip d = Ok item)
         before ->
  Messages.channelItem JSON_parse zip dir = Throw e ->
  exists items,
    Messages.channelItems JSON_parse zip (before ++ dir :: after)%list
    = (items, Some e) /\
    map fst items = before /\
    Forall (fun p => Messages.channelItem JSON_parse zip (fst p) = Ok (snd p)) items.
Proof.
  intros F E. induction F as [|d t [item Hd] _ (items & H & M & A)]; simpl.
  - rewrite E. exists []. repeat split. constructor.
  - rewrite Hd, H. exists ((d, item) :: items). simpl. rewrite M.
    repeat split. constructor; [exact Hd | exact A].
Qed.

Lemma channelItems_through (zip : Zip.archive) (dirs : list string) :
  Forall (fun d => exists item, Messages.channelItem JSON_parse zip d = Ok item)
         dirs ->
  exists items,
    Messages.channelItems JSON_parse zip dirs = (items, None) /\
    map fst items = dirs /\
    Forall (fun p => Messages.channelItem JSON_parse zip (fst p) = Ok (snd p)) items.
Proof.
  induction 1 as [|d t [item Hd] _ (items & H & M & A)]; simpl.
  - exists []. repeat split. constructor.
  - rewrite Hd, H. exists ((d, item) :: items). simpl. rewrite M.
    repeat split. constructor; [exact Hd | exact A].
Qed.


Lemma attachmentCell_string_or_unset (v : value) :
  is_string v = true \/ v = VUndef ->
  exists c, Messages.attachmentCell v = Ok c.
Proof.
  intros [H| ->]; [|now eexists].
  destruct v as [| |b|q|s|l|props]; try discriminate.
  unfold Messages.attachmentCell.
  destruct (truthy (VStr s)); [|now eexists].
  destruct (startsWith s "http"); now eexists.
Qed.

(** X9.  The attachments cell fails, with a TypeError, exactly on a value
    that counts as true and is not a string; a string is shown as a link
    exactly when it starts with http.  Every message of a CSV log gets
    its cell. *)
Theorem attachmentCell_fails :
  (forall v, (exists e, Messages.attachmentCell v = Throw e) <->
             truthy v = true /\ is_string v = false) /\
  (forall s, (exists href, Messages.attachmentCell (VStr s) = Ok (Messages.Link href)) <->
             startsWith s "http" = true) /\
  (forall zip dir f text,
      Zip.file zip (json_path dir) = None ->
      Zip.file zip (csv_path dir) = Some f ->
      Zip.content f = Some text ->
      exists msgs,
        Messages.readMessages JSON_parse zip dir = Ok msgs /\
        Forall (fun m => exists c,
                    Messages.attachmentCell (Messages.msg_attachments m) = Ok c)
               msgs).
Proof.
  split; [|split].
  - intros v. unfold Messages.attachmentCell.
    destruct (truthy v) eqn:T.
    + destruct v as [| |b|q|s|l|props]; try discriminate;
        try (split; [intros _; split; reflexivity | intros _; now eexists]).
      destruct (startsWith s "http");
        (split; [intros [? ?]; discriminate | intros [_ ?]; discriminate]).
    + split; [intros [? ?]; discriminate | intros [? _]; discriminate].
  - intros s. unfold Messages.attachmentCell.
    destruct (truthy (VStr s)) eqn:T.
    + destruct (startsWith s "http"); split;
        try (intros [? ?]; discriminate); try discriminate;
        [reflexivity | intros _; now eexists].
    + split; [intros [? ?]; discriminate|].
      simpl in T. apply negb_false_iff, String.eqb_eq in T. subst s. discriminate.
  - intros zip dir f text J C T.
    exists (map from_csv (Messages.parseCsv text)).
    split; [now apply readMessages_csv with f|].
    apply Forall_forall. intros m Hm. apply in_map_iff in Hm.
    destruct Hm as (record & <- & Hr).
    apply attachmentCell_string_or_unset. cbn.
    apply (parseCsv_record_shape text record Hr).
Qed.

Lemma ascending_head (l : list string) (d : string) :
  ascending l -> In d l -> String.leb (hd EmptyString l) d = true.
Proof.
  unfold ascending. intros A H. destruct A as [|x t _ Fa]; [destruct H|].
  simpl. destruct H as [<-|H]; [apply string_leb_refl|].
  rewrite Forall_forall in Fa. now apply Fa.
Qed.

(** X10.  The self-test of the messages module always reports its CSV
    check as passed; it reports nothing else when the archive has no
    channel, and otherwise whether the log of the least channel
    identifier could be read. *)
Theorem messages_test_results (zip : Zip.archive) :
  (Messages.listChannelDirs zip = [] ->
   Messages.test JSON_parse zip = Ok [mkTestResult "parseCsv simple test" true]) /\
  (forall d,
      In d (Messages.listChannelDirs zip) ->
      (forall d', In d' (Messages.listChannelDirs zip) -> String.leb d d' = true) ->
      Messages.test JSON_parse zip =
      Ok [ mkTestResult "parseCsv simple test" true;
           mkTestResult "readMessages returns array"
             match Messages.readMessages JSON_parse zip d with
             | Ok _ => true
             | Throw _ => false
             end ]).
Proof.
  unfold Messages.test.
  change Messages.csvOk with (@Ok bool true). cbn [bind].
  pose proof (sort_perm (Messages.listChannelDirs zip)) as P.
  pose proof (sort_ascending (Messages.listChannelDirs zip)) as A.
  split.
  - intros E. rewrite E. reflexivity.
  - intros d Hd Least.
    destruct (sort (Messages.listChannelDirs zip)) as [|x t] eqn:S.
    + apply Permutation_sym, Permutation_nil in P. rewrite P in Hd. destruct Hd.
    + cbn [List.length Nat.eqb hd app].
      assert (x = d) as ->; [|reflexivity].
      apply String.leb_antisym.
      * apply (ascending_head (x :: t) d A).
        apply (Permutation_in _ P Hd).
      * apply Least. apply (Permutation_in _ (Permutation_sym P)). now left.
Qed.

End ChannelList.

(* ===================================================================== *)
(** ** More on the account extractor                                     *)
(* ===================================================================== *)

Section ProfileErrors.

Import Js Terms.

Variable JSON_parse : string -> option value.

Lemma parseUser_null (zip : Zip.archive) (user : value) :
  Account.readJson JSON_parse zip "Account/user.json" = Ok user ->
  nullish user = true ->
  Account.parseUser JSON_parse zip = Throw TypeError.
Proof.
  intros R N. unfold Account.parseUser. rewrite R. now destruct user.
Qed.

(** X11.  The profile is extracted exactly when [Account/user.json] is
    there, can be read and parses to a value other than null; an absent
    optional field never makes the extraction fail. *)
Theorem parseUser_fulfils (zip : Zip.archive) :
  (exists account, Account.parseUser JSON_parse zip = Ok account) <->
  exists user,
    Account.readJson JSON_parse zip "Account/user.json" = Ok user /\
    nullish user = false.
Proof.
  split.
  - intros [account H].
    destruct (Account.readJson JSON_parse zip "Account/user.json") as [user|e] eqn:R.
    + exists user. split; [reflexivity|].
      destruct (nullish user) eqn:N; [|reflexivity].
      rewrite (parseUser_null zip user R N) in H. discriminate.
    + unfold Account.parseUser in H. rewrite R in H. discriminate.
  - intros (user & R & N). rewrite (parseUser_ok JSON_parse zip user R N).
    eexists. reflexivity.
Qed.

(** X12.  The global name of the profile is its global_name when that
    counts as true and null otherwise, whatever the username; id,
    username, discriminator, email, verified, phone and premium_until
    are handed on as they are, unset when absent. *)
Theorem parseUser_fields (zip : Zip.archive) (user : value) :
  Account.readJson JSON_parse zip "Account/user.json" = Ok user ->
  nullish user = false ->
  exists account,
    Account.parseUser JSON_parse zip = Ok account /\
    (absent_or_falsy (field user "global_name") -> Account.globalName account = VNull) /\
    (~ absent_or_falsy (field user "global_name") ->
     Account.globalName account = field user "global_name") /\
    Account.id account = field user "id" /\
    Account.username account = field user "username" /\
    Account.discriminator account = field user "discriminator" /\
    Account.email account = field user "email" /\
    Account.verified account = field user "verified" /\
    Account.phone account = field user "phone" /\
    Account.premiumUntil account = field user "premium_until".
Proof.
  intros R N. rewrite (parseUser_ok JSON_parse zip user R N).
  eexists. split; [reflexivity|]. cbn. repeat split.
  - intros F. apply truthy_false_iff in F. now rewrite F.
  - intros F. apply truthy_true_iff in F. now rewrite F.
Qed.

(** X13.  The self-test of the account module reports two results; both
    pass exactly when the profile parses to a record whose id and
    username count as true and [Account/avatar.png] is a file of the
    archive. *)
Theorem account_test_passes (zip : Zip.archive) :
  List.length (Account.test JSON_parse zip) = 2 /\
  (forallb passed (Account.test JSON_parse zip) = true <->
   (exists user,
       Account.readJson JSON_parse zip "Account/user.json" = Ok user /\
       nullish user = false /\
       truthy (field user "id") = true /\ truthy (field user "username") = true) /\
   (exists f, Zip.file zip "Account/avatar.png" = Some f)).
Proof.
  unfold Account.test.
  destruct (Account.readJson JSON_parse zip "Account/user.json") as [user|e] eqn:R.
  - destruct (nullish user) eqn:N.
    + rewrite (parseUser_null zip user R N). split; [reflexivity|]. simpl.
      split; [discriminate|].
      intros [(u & [= <-] & N' & _) _]. congruence.
    + rewrite (parseUser_ok JSON_parse zip user R N). split; [reflexivity|].
      cbn. rewrite andb_true_r, !andb_true_iff.
      destruct (Zip.file zip "Account/avatar.png") as [f|].
      * split.
        -- intros [[I U] _]. split; [|now exists f].
           exists user. now repeat split.
        -- intros [(u & [= <-] & _ & I & U) _]. now repeat split.
      * split; [intros [_ H]; discriminate | intros [_ [f H]]; discriminate].
  - assert (P : Account.parseUser JSON_parse zip = Throw e)
      by (unfold Account.parseUser; now rewrite R).
    rewrite P. split; [reflexivity|]. simpl.
    split; [discriminate | intros [(u & H & _) _]; discriminate].
Qed.

End ProfileErrors.

Section ApplicationsCollected.

Import Js Terms.
Local Open Scope list_scope.

Variable JSON_parse : string -> option value.

Lemma collected_app (zip : Zip.archive) (l1 l2 : list string) :
  collected JSON_parse zip (l1 ++ l2)
  = collected JSON_parse zip l1 ++ collected JSON_parse zip l2.
Proof. unfold collected. apply flat_map_app. Qed.

Lemma collected_cons (zip : Zip.archive) (path : string) (l : list string) :
  collected JSON_parse zip (path :: l)
  = match Account.read_application JSON_parse zip path with
    | Ok app => [app]
    | Throw _ => []
    end ++ collected JSON_parse zip l.
Proof. reflexivity. Qed.

Lemma step_collected (zip : Zip.archive) (r r' : Account.run) :
  Account.step JSON_parse zip r r' ->
  Permutation
    (Account.result_array r' ++ collected JSON_parse zip (Account.suspended r'))
    (Account.result_array r ++ collected JSON_parse zip (Account.suspended r)).
Proof.
  intros S. destruct S as [r before path after E].
  rewrite callback_resume_suspended, callback_resume_result, E.
  cbn [Account.result_array Account.suspended].
  rewrite !collected_app, collected_cons.
  destruct (Account.read_application JSON_parse zip path) as [record|e].
  - rewrite <- !app_assoc. apply Permutation_app_head.
    cbn [List.app]. apply Permutation_middle.
  - reflexivity.
Qed.

(** X14.  In whatever order the suspended reads of [parseApplications]
    complete, once all have, the array that was returned holds the
    records of the applications whose [application.json] could be read
    and parsed, each once, and nothing else; only their order depends on
    the order of completion. *)
Theorem parseApplications_settles (zip : Zip.archive) (r : Account.run) :
  Account.steps JSON_parse zip (snd (Account.parseApplications zip)) r ->
  Account.suspended r = [] ->
  Permutation
    (Account.result_array r)
    (collected JSON_parse zip
       (Account.suspended (snd (Account.parseApplications zip)))).
Proof.
  intros S Done.
  assert (G : forall r0 r1,
             Account.steps JSON_parse zip r0 r1 ->
             Permutation
               (Account.result_array r1 ++
                collected JSON_parse zip (Account.suspended r1))
               (Account.result_array r0 ++
                collected JSON_parse zip (Account.suspended r0))).
  { induction 1 as [r0|r0 r1 r2 S1 _ IH]; [reflexivity|].
    rewrite IH. now apply step_collected. }
  specialize (G _ _ S). rewrite Done in G. cbn in G. rewrite app_nil_r in G.
  unfold Account.parseApplications in *. cbn [snd] in *.
  rewrite enumerate_spec in G at 1. cbn in G. exact G.
Qed.

End ApplicationsCollected.

(* ===================================================================== *)
(** ** Avatars                                                           *)
(* ===================================================================== *)

Section Avatars.

Import Js Terms.

Variable async_base64 : Zip.entry -> result string.

Lemma split_free (c : ascii) (e : string) : free_of c e -> split c e = [e].
Proof.
  induction e as [|x e IH]; simpl; [reflexivity|].
  intros [Hx F]. destruct (Ascii.eqb_spec x c); [contradiction|].
  now rewrite (IH F).
Qed.

Lemma split_app_tail (c : ascii) (a b : string) :
  exists front, front <> [] /\ split c (a ++ String c b) = (front ++ split c b)%list.
Proof.
  induction a as [|x a (front & N & E)]; simpl.
  - rewrite Ascii.eqb_refl. exists [""]. split; [discriminate | reflexivity].
  - destruct (Ascii.eqb x c).
    + exists ("" :: front). split; [discriminate|]. now rewrite E.
    + rewrite E. destruct front as [|h t]; [contradiction|].
      exists (String x h :: t). split; [discriminate | reflexivity].
Qed.

Lemma last_app_nonempty (l1 l2 : list string) (d : string) :
  l2 <> [] -> last (l1 ++ l2)%list d = last l2 d.
Proof.
  intros N. induction l1 as [|x l1 IH]; [reflexivity|].
  simpl. destruct (l1 ++ l2)%list eqn:E; [|exact IH].
  apply app_eq_nil in E. destruct E. contradiction.
Qed.

(** X15.  The MIME type of a data URI is chosen from the text after the
    last dot of the path, whatever its case: png gives image/png, jpg and
    jpeg give image/jpeg, and anything else, a path without a dot
    included, gives application/octet-stream unless it is itself one of
    these words. *)
Theorem mime_by_extension :
  (forall p e, free_of Account.dot e ->
               Account.extension (p ++ String Account.dot e) = toLowerCase e) /\
  (forall p, free_of Account.dot p -> Account.extension p = toLowerCase p) /\
  (forall p, Account.mime p = "image/png" <-> Account.extension p = "png") /\
  (forall p, Account.mime p = "image/jpeg" <->
             Account.extension p = "jpg" \/ Account.extension p = "jpeg") /\
  (forall p, Account.mime p = "application/octet-stream" <->
             Account.extension p <> "png" /\ Account.extension p <> "jpg" /\
             Account.extension p <> "jpeg").
Proof.
  split; [|split; [|split; [|split]]].
  - intros p e F. unfold Account.extension.
    destruct (split_app_tail Account.dot p e) as (front & N & ->).
    rewrite last_app_nonempty by apply split_nonempty.
    now rewrite (split_free _ _ F).
  - intros p F. unfold Account.extension. now rewrite (split_free _ _ F).
  - intros p. unfold Account.mime.
    destruct (String.eqb_spec (Account.extension p) "png") as [->|N].
    + split; reflexivity.
    + destruct ((Account.extension p =? "jpg") || (Account.extension p =? "jpeg"));
        split; try discriminate; contradiction.
  - intros p. unfold Account.mime.
    destruct (String.eqb_spec (Account.extension p) "png") as [E|N].
    + rewrite E. split; [discriminate | intros [H|H]; discriminate].
    + destruct (String.eqb_spec (Account.extension p) "jpg") as [E2|N2]; simpl.
      * split; [now left | reflexivity].
      * destruct (String.eqb_spec (Account.extension p) "jpeg") as [E3|N3].
        -- split; [now right | reflexivity].
        -- split; [discriminate | intros [H|H]; contradiction].
  - intros p. unfold Account.mime.
    destruct (String.eqb_spec (Account.extension p) "png") as [E|N].
    + split; [discriminate | intros [H _]; contradiction].
    + destruct (String.eqb_spec (Account.extension p) "jpg") as [E2|N2]; simpl.
      * split; [discriminate | intros (_ & H & _); contradiction].
      * destruct (String.eqb_spec (Account.extension p) "jpeg") as [E3|N3].
        -- split; [discriminate | intros (_ & _ & H); contradiction].
        -- split; [now repeat split | reflexivity].
Qed.

Lemma prefix_slice (p s : string) :
  String.prefix p s = true -> p ++ slice_from (String.length p) s = s.
Proof.
  revert s; induction p as [|a p IH]; intros s H.
  - simpl. apply slice_from_0.
  - destruct s as [|b s]; [discriminate|]. simpl in H.
    destruct (ascii_dec a b) as [->|]; [|discriminate].
    simpl. f_equal. apply (IH s H).
Qed.

Lemma file_of_entry (zip : Zip.archive) (e : Zip.entry) :
  distinct_names zip -> In e zip -> Zip.dir e = false ->
  Zip.file zip (Zip.name e) = Some e.
Proof.
  unfold distinct_names, Zip.file. intros N H D.
  induction zip as [|e0 zip IH]; [destruct H|].
  simpl in *. inversion N as [|? ? Hn Nz]; subst.
  destruct (String.eqb_spec (Zip.name e0) (Zip.name e)) as [E|Ne].
  - destruct H as [->|H]; [now rewrite D|].
    exfalso. apply Hn. rewrite E. now apply in_map.
  - destruct H as [->|H]; [contradiction | now apply IH].
Qed.

Lemma avatar_files_spec (zip : Zip.archive) :
  Account.avatar_files zip
  = map (fun e => slice_from (String.length "Account/recent_avatars/") (Zip.name e))
        (filter is_avatar_file zip).
Proof.
  unfold Account.avatar_files, Zip.forEach_args, Zip.folder, is_avatar_file.
  change ("Account/recent_avatars" ++ "/") with "Account/recent_avatars/".
  induction zip as [|e zip IH]; [reflexivity|].
  cbn [flat_map filter map]. rewrite flat_map_app, IH.
  destruct (slice_from (String.length "Account/recent_avatars/") (Zip.name e) =? "");
    destruct (startsWith (Zip.name e) "Account/recent_avatars/");
    cbn [negb andb flat_map fst snd List.app];
    destruct (Zip.dir e); reflexivity.
Qed.

Lemma avatar_path (e : Zip.entry) :
  is_avatar_file e = true ->
  "Account/recent_avatars/" ++
  slice_from (String.length "Account/recent_avatars/") (Zip.name e) = Zip.name e /\
  Zip.dir e = false.
Proof.
  unfold is_avatar_file, startsWith. rewrite !andb_true_iff, negb_true_iff.
  intros [[D _] P]. split; [now apply prefix_slice | exact D].
Qed.

(** X16.  When the files under [Account/recent_avatars/] can all be read,
    the recent avatars are one asset for each of them, in the order of
    the archive, named by its path under the folder and holding its data
    URI, never null. *)
Theorem parseRecentAvatars_assets (zip : Zip.archive) (payload : Zip.entry -> string) :
  distinct_names zip ->
  (forall e, In e zip -> is_avatar_file e = true -> async_base64 e = Ok (payload e)) ->
  Account.parseRecentAvatars async_base64 zip =
  Ok (map (fun e =>
             Account.mkAvatar
               (slice_from (String.length "Account/recent_avatars/") (Zip.name e))
               (VStr ("data:" ++ Account.mime (Zip.name e) ++ ";base64," ++ payload e)))
          (filter is_avatar_file zip)).
Proof.
  intros N R. unfold Account.parseRecentAvatars. rewrite avatar_files_spec.
  assert (F : forall e, In e (filter is_avatar_file zip) ->
                        In e zip /\ is_avatar_file e = true)
    by (intros e H; now apply filter_In in H).
  induction (filter is_avatar_file zip) as [|e l IH]; [reflexivity|].
  cbn [map mapM].
  destruct (F e (or_introl eq_refl)) as [He Ae].
  destruct (avatar_path e Ae) as [P D].
  rewrite P. unfold Account.fileToDataUri at 1.
  rewrite (file_of_entry zip e N He D), (R e He Ae). cbn [bind].
  rewrite IH by (intros e' H; apply F; now right). reflexivity.
Qed.

(** X17.  One file under [Account/recent_avatars/] that cannot be read
    makes the whole extraction of the recent avatars fail: no asset is
    skipped, and none is returned. *)
Theorem parseRecentAvatars_fails (zip : Zip.archive) (e : Zip.entry) (err : error) :
  distinct_names zip ->
  In e zip -> is_avatar_file e = true ->
  async_base64 e = Throw err ->
  exists err', Account.parseRecentAvatars async_base64 zip = Throw err'.
Proof.
  intros N He Ae R. unfold Account.parseRecentAvatars. rewrite avatar_files_spec.
  assert (H : In e (filter is_avatar_file zip)) by (apply filter_In; now split).
  induction (filter is_avatar_file zip) as [|e0 l IH]; [destruct H|].
  cbn [map mapM].
  destruct (Account.fileToDataUri async_base64 zip
              ("Account/recent_avatars/" ++
               slice_from (String.length "Account/recent_avatars/") (Zip.name e0)))
    as [uri|err0] eqn:U; cbn [bind]; [|now exists err0].
  destruct H as [->|H].
  - destruct (avatar_path e Ae) as [P D]. rewrite P in U.
    unfold Account.fileToDataUri in U.
    rewrite (file_of_entry zip e N He D), R in U. discriminate.
  - destruct (IH H) as [err' ->]. now exists err'.
Qed.

(** X18.  The data URI of a path is null exactly when the path is no file
    of the archive (absent, or a folder), which is no failure; for a file
    it is [data:], the MIME type of the path, [;base64,] and the content,
    and a read that fails is the only failure. *)
Theorem fileToDataUri_result (zip : Zip.archive) (path : string) :
  (Account.fileToDataUri async_base64 zip path = Ok VNull <->
   Zip.file zip path = None) /\
  (forall f data,
      Zip.file zip path = Some f -> async_base64 f = Ok data ->
      Account.fileToDataUri async_base64 zip path =
      Ok (VStr ("data:" ++ Account.mime path ++ ";base64," ++ data))) /\
  (forall err,
      Account.fileToDataUri async_base64 zip path = Throw err <->
      exists f, Zip.file zip path = Some f /\ async_base64 f = Throw err).
Proof.
  unfold Account.fileToDataUri.
  destruct (Zip.file zip path) as [f|].
  - destruct (async_base64 f) as [data|e] eqn:R; cbn [bind].
    + split; [split; discriminate|]. split.
      * intros f' data' [= <-] E. rewrite R in E. now injection E as ->.
      * intros err. split; [discriminate|].
        intros (f' & [= <-] & E). congruence.
    + split; [split; discriminate|]. split.
      * intros f' data' [= <-] E. congruence.
      * intros err. split.
        -- intros [= ->]. now exists f.
        -- intros (f' & [= <-] & E). congruence.
  - split; [split; reflexivity|]. split.
    + intros f data H. discriminate.
    + intros err. split; [discriminate | intros (f & H & _); discriminate].
Qed.

End Avatars.

(* ===================================================================== *)
(** ** The navigation of [handleFile]                                    *)
(* ===================================================================== *)

Section Navigation.

Import Js Terms.

Lemma indexOf_first (v : string) (before after : list string) :
  ~ In v before -> indexOf v (before ++ v :: after) = Some (List.length before).
Proof.
  induction before as [|x before IH]; simpl; intros N.
  - now rewrite String.eqb_refl.
  - destruct (String.eqb_spec x v) as [->|Nx]; [exfalso; apply N; now left|].
    rewrite IH; [reflexivity|]. intros H. apply N. now right.
Qed.

Lemma indexOf_earlier (v : string) (before after : list string) :
  In v before ->
  exists j, indexOf v (before ++ after) = Some j /\ j < List.length before.
Proof.
  induction before as [|x before IH]; simpl; intros H; [destruct H|].
  destruct (String.eqb_spec x v) as [->|Nx].
  - exists 0. split; [reflexivity | lia].
  - destruct H as [->|H]; [contradiction|].
    destruct (IH H) as (j & -> & Hj). exists (S j). split; [reflexivity | lia].
Qed.

Lemma first_occurrences (a : list string) (before l : list string) :
  a = (before ++ l)%list ->
  let kept :=
    filter_indexed
      (fun v i => match indexOf v a with
                  | Some j => Nat.eqb j i
                  | None => false
                  end)
      (List.length before) l in
  NoDup kept /\ forall x, In x kept <-> In x l /\ ~ In x before.
Proof.
  revert before; induction l as [|v t IH]; intros before E; cbn zeta.
  - split; [constructor | simpl; intuition].
  - assert (E' : a = ((before ++ [v]) ++ t)%list) by (now rewrite <- app_assoc).
    destruct (IH (before ++ [v])%list E') as [N I]. cbn zeta in N, I.
    rewrite length_app in N, I. simpl in N, I.
    rewrite Nat.add_1_r in N, I.
    cbn [filter_indexed].
    destruct (in_dec string_dec v before) as [Hin|Hout].
    + destruct (indexOf_earlier v before (v :: t) Hin) as (j & Hj & Lt).
      rewrite <- E in Hj. rewrite Hj.
      assert (Nat.eqb j (List.length before) = false) as -> by (apply Nat.eqb_neq; lia).
      split; [exact N|].
      intros x. rewrite I, in_app_iff. simpl. split.
      * intros [Hx Nx]. split; [now right | tauto].
      * intros [[<-|Hx] Nx]; [contradiction|]. split; [exact Hx|].
        intros [H|[<-|[]]]; contradiction.
    + pose proof (indexOf_first v before t Hout) as Hi.
      rewrite <- E in Hi. rewrite Hi, Nat.eqb_refl.
      split.
      * constructor; [|exact N]. rewrite I, in_app_iff. simpl. tauto.
      * intros x. simpl. rewrite I, in_app_iff. simpl. split.
        -- intros [<-|[Hx Nx]]; [tauto|]. split; [now right | tauto].
        -- intros [[<-|Hx] Nx]; [now left|].
           destruct (string_dec v x) as [->|Nvx]; [now left|].
           right. split; [exact Hx|]. intros [H|[H|[]]]; contradiction.
Qed.

Lemma folderRoots_In (zip : Zip.archive) (r : string) :
  In r (Main.folderRoots zip) <->
  exists e, In e zip /\ endsWith (Zip.name e) "/" = true /\
            hd EmptyString (segments (Zip.name e)) = r.
Proof.
  unfold Main.folderRoots, segments. rewrite in_map_iff. split.
  - intros (name & <- & H). apply filter_In in H. destruct H as [H E].
    apply in_map_iff in H. destruct H as (e & <- & He). now exists e.
  - intros (e & He & E & <-). exists (Zip.name e). split; [reflexivity|].
    apply filter_In. split; [now apply in_map | exact E].
Qed.

Lemma rootFolders_spec (zip : Zip.archive) :
  NoDup (Main.rootFolders zip) /\
  forall r, In r (Main.rootFolders zip) <-> In r (Main.folderRoots zip).
Proof.
  unfold Main.rootFolders.
  destruct (first_occurrences (Main.folderRoots zip) [] (Main.folderRoots zip) eq_refl)
    as [N I].
  split; [exact N|]. intros r. rewrite (I r). simpl. tauto.
Qed.

(** X19.  The root folders of an archive are the first path segments of
    its entries whose name ends with a slash, each once.  Files alone do
    not count: a folder that has no entry of its own is no root folder,
    whatever files lie under it. *)
Theorem rootFolders_distinct (zip : Zip.archive) :
  NoDup (Main.rootFolders zip) /\
  (forall r,
      In r (Main.rootFolders zip) <->
      exists e, In e zip /\ endsWith (Zip.name e) "/" = true /\
                hd EmptyString (segments (Zip.name e)) = r) /\
  ((forall e, In e zip -> endsWith (Zip.name e) "/" = false) ->
   Main.rootFolders zip = []).
Proof.
  destruct (rootFolders_spec zip) as [N I].
  split; [exact N|]. split.
  - intros r. now rewrite I, folderRoots_In.
  - intros H. destruct (Main.rootFolders zip) as [|r t]; [reflexivity|].
    assert (Hr : In r (Main.folderRoots zip)) by (apply I; now left).
    apply folderRoots_In in Hr. destruct Hr as (e & He & S & _).
    rewrite (H e He) in S. discriminate.
Qed.

Lemma navigation_In (zip : Zip.archive) (m : Main.module) :
  In m (Main.navigation zip) <->
  exists r, In r (Main.rootFolders zip) /\
            toLowerCase r = match m with
                            | Main.AccountModule => "account"
                            | Main.MessagesModule => "messages"
                            end.
Proof.
  unfold Main.navigation. rewrite in_flat_map. split.
  - intros (r & Hr & H). exists r. split; [exact Hr|].
    destruct (String.eqb_spec (toLowerCase r) "account") as [E|N].
    + destruct H as [<-|[]]. exact E.
    + destruct (String.eqb_spec (toLowerCase r) "messages") as [E2|N2].
      * destruct H as [<-|[]]. exact E2.
      * destruct H.
  - intros (r & Hr & E). exists r. split; [exact Hr|].
    rewrite E. destruct m; simpl; now left.
Qed.

(** X20.  A module gets its navigation button exactly when some entry
    whose name ends with a slash has a first path segment that is the
    name of the module up to case: account for the account module,
    messages for the messages module. *)
Theorem navigation_offers (zip : Zip.archive) :
  (In Main.AccountModule (Main.navigation zip) <->
   exists e, In e zip /\ endsWith (Zip.name e) "/" = true /\
             toLowerCase (hd EmptyString (segments (Zip.name e))) = "account") /\
  (In Main.MessagesModule (Main.navigation zip) <->
   exists e, In e zip /\ endsWith (Zip.name e) "/" = true /\
             toLowerCase (hd EmptyString (segments (Zip.name e))) = "messages").
Proof.
  destruct (rootFolders_spec zip) as [_ I].
  split; rewrite navigation_In; split.
  - intros (r & Hr & E). apply I, folderRoots_In in Hr.
    destruct Hr as (e & He & S & <-). now exists e.
  - intros (e & He & S & E). eexists. split; [|exact E].
    apply I, folderRoots_In. now exists e.
  - intros (r & Hr & E). apply I, folderRoots_In in Hr.
    destruct Hr as (e & He & S & <-). now exists e.
  - intros (e & He & S & E). eexists. split; [|exact E].
    apply I, folderRoots_In. now exists e.
Qed.

End Navigation.

(* ===================================================================== *)
(** ** The further properties on the samples                             *)
(* ===================================================================== *)

Section FurtherSamples.

Import Js Terms.

Lemma parseCsv_record_fields_witness :
  In (VObj [("a", VStr "y")]) (Messages.parseCsv Sample.protoHeader) /\
  csv_header Sample.protoHeader = ["__proto__"; "a"] /\
  NoDup (keys (VObj [("a", VStr "y")])) /\
  ~ In "__proto__" (keys (VObj [("a", VStr "y")])) /\
  In "a" (keys (VObj [("a", VStr "y")])).
Proof.
  assert (H : In (VObj [("a", VStr "y")]) (Messages.parseCsv Sample.protoHeader))
    by (left; reflexivity).
  split; [exact H|]. split; [reflexivity|].
  destruct (parseCsv_record_fields Sample.protoHeader _ H) as (N & K & _).
  split; [exact N|]. split.
  - intros I. apply K in I. destruct I as [_ I]. now apply I.
  - apply K. split; [right; left; reflexivity | discriminate].
Defined.

Lemma parseCsv_around_witness :
  all_space (Sample.LF ++ Sample.LF) = true /\
  all_space (String cr Sample.LF) = true /\
  Messages.parseCsv ((Sample.LF ++ Sample.LF) ++ Sample.csvSample ++ String cr Sample.LF)
  = Messages.parseCsv Sample.csvSample.
Proof.
  split; [reflexivity|]. split; [reflexivity|].
  apply parseCsv_around; reflexivity.
Defined.

(** The comma of [Hello, world] ends the content and moves the rest on. *)
Lemma readMessages_csv_rows_witness :
  Zip.file (Sample.csv_log "42" Sample.commaSample) (json_path "42") = None /\
  csv_header Sample.commaSample = ["ID"; "Timestamp"; "Contents"; "Attachments"] /\
  Messages.readMessages Sample.parse (Sample.csv_log "42" Sample.commaSample) "42"
  = Ok [ {| Messages.msg_id := VStr "1";
            Messages.msg_timestamp := VStr "2021-01-01";
            Messages.msg_content := VStr "Hello";
            Messages.msg_attachments := VStr " world" |} ].
Proof.
  split; [reflexivity|]. split; [reflexivity|].
  apply (readMessages_csv_rows Sample.parse (Sample.csv_log "42" Sample.commaSample) "42"
           (Sample.text_file (csv_path "42") Sample.commaSample) Sample.commaSample);
    reflexivity.
Defined.

Lemma readChannelInfo_passes_fields_witness :
  Messages.readJson Sample.parse (Sample.channel_archive "42" Sample.alice_text)
                    (channel_path "42") = Ok Sample.alice /\
  exists info,
    Messages.readChannelInfo Sample.parse
      (Sample.channel_archive "42" Sample.alice_text) "42" = Ok info /\
    Messages.ch_id info = VUndef /\
    Messages.ch_guild info = VNull.
Proof.
  split; [reflexivity|].
  destruct (readChannelInfo_passes_fields Sample.parse
              (Sample.channel_archive "42" Sample.alice_text) "42" Sample.alice
              eq_refl eq_refl) as (info & R & I & _ & G & _).
  exists info. split; [exact R|]. split; [exact I | exact (G eq_refl)].
Defined.


Lemma attachmentCell_fails_witness :
  exists msgs,
    Messages.readMessages Sample.parse (Sample.csv_log "42" Sample.csvSample) "42"
    = Ok msgs /\
    Forall (fun m => exists c,
                Messages.attachmentCell (Messages.msg_attachments m) = Ok c)
           msgs.
Proof.
  apply (proj2 (proj2 (attachmentCell_fails Sample.parse))
           (Sample.csv_log "42" Sample.csvSample) "42"
           (Sample.text_file (csv_path "42") Sample.csvSample) Sample.csvSample);
    reflexivity.
Defined.

Lemma messages_test_results_witness :
  In "c7" (Messages.listChannelDirs Sample.files_only_archive) /\
  Messages.test Sample.parse Sample.files_only_archive
  = Ok [ mkTestResult "parseCsv simple test" true;
         mkTestResult "readMessages returns array" true ].
Proof.
  split; [left; reflexivity|].
  apply (proj2 (messages_test_results Sample.parse Sample.files_only_archive) "c7").
  - left. reflexivity.
  - intros d' [<-|[]]. reflexivity.
Defined.

Lemma parseUser_fulfils_witness :
  exists account,
    Account.parseUser Sample.parse Sample.account_archive = Ok account.
Proof.
  apply (proj2 (parseUser_fulfils Sample.parse Sample.account_archive)).
  exists Sample.user. split; reflexivity.
Defined.

(** The profile of the sample has no global_name: its global name is
    null, not its username. *)
Lemma parseUser_fields_witness :
  Account.readJson Sample.parse Sample.account_archive "Account/user.json"
  = Ok Sample.user /\
  exists account,
    Account.parseUser Sample.parse Sample.account_archive = Ok account /\
    Account.globalName account = VNull /\
    Account.username account = VStr "u".
Proof.
  split; [reflexivity|].
  destruct (parseUser_fields Sample.parse Sample.account_archive Sample.user
              eq_refl eq_refl) as (account & R & G & _ & _ & U & _).
  exists account. split; [exact R|]. split; [|exact U].
  apply G. left. reflexivity.
Defined.

Lemma parseApplications_settles_witness :
  Permutation
    (Account.result_array
       (Account.settle_in_order Sample.parse Sample.two_applications
          (snd (Account.parseApplications Sample.two_applications))))
    [Sample.app_record].
Proof.
  destruct (steps_in_order Sample.parse Sample.two_applications
              (snd (Account.parseApplications Sample.two_applications))) as [S D].
  exact (parseApplications_settles Sample.parse Sample.two_applications _ S D).
Defined.

Lemma mime_by_extension_witness :
  Account.extension "Account/recent_avatars/a.PNG" = "png" /\
  Account.extension "Account/avatar" = "account/avatar".
Proof.
  split.
  - apply (proj1 mime_by_extension "Account/recent_avatars/a" "PNG").
    simpl. repeat split; discriminate.
  - apply (proj1 (proj2 mime_by_extension) "Account/avatar").
    simpl. repeat split; discriminate.
Defined.

Lemma parseRecentAvatars_assets_witness :
  distinct_names Sample.avatars_archive /\
  Account.parseRecentAvatars Sample.base64 Sample.avatars_archive =
  Ok [ Account.mkAvatar "a.PNG" (VStr "data:image/png;base64,cG5n");
       Account.mkAvatar "b.jpg" (VStr "data:image/jpeg;base64,anBn") ].
Proof.
  assert (N : distinct_names Sample.avatars_archive).
  { unfold distinct_names. simpl.
    repeat (constructor; [simpl; intuition discriminate|]). constructor. }
  split; [exact N|].
  apply (parseRecentAvatars_assets Sample.base64 Sample.avatars_archive
           (fun e => match Sample.base64 e with Ok d => d | Throw _ => "" end) N).
  intros e [<-|[<-|[<-|[<-|[]]]]]; intros A; try discriminate A; reflexivity.
Defined.

Lemma parseRecentAvatars_fails_witness :
  distinct_names Sample.broken_avatars_archive /\
  is_avatar_file Sample.unreadable_avatar = true /\
  exists err,
    Account.parseRecentAvatars Sample.base64 Sample.broken_avatars_archive = Throw err.
Proof.
  assert (N : distinct_names Sample.broken_avatars_archive).
  { unfold distinct_names. simpl.
    repeat (constructor; [simpl; intuition discriminate|]). constructor. }
  split; [exact N|]. split; [reflexivity|].
  apply (parseRecentAvatars_fails Sample.base64 Sample.broken_avatars_archive
           Sample.unreadable_avatar ReadFailure N).
  - right; right; right; left. reflexivity.
  - reflexivity.
  - reflexivity.
Defined.

(** No [Account/avatar.png]: the primary avatar is null. *)
Lemma fileToDataUri_result_witness :
  Zip.file Sample.account_archive "Account/avatar.png" = None /\
  Account.fileToDataUri Sample.base64 Sample.account_archive "Account/avatar.png"
  = Ok VNull.
Proof.
  split; [reflexivity|].
  apply (proj1 (fileToDataUri_result Sample.base64 Sample.account_archive
                  "Account/avatar.png")).
  reflexivity.
Defined.

(** Files without entries for their folders: a channel is found, and no
    root folder. *)
Lemma rootFolders_distinct_witness :
  Messages.listChannelDirs Sample.files_only_archive = ["c7"] /\
  Main.rootFolders Sample.files_only_archive = [].
Proof.
  split; [reflexivity|].
  apply (proj2 (proj2 (rootFolders_distinct Sample.files_only_archive))).
  intros e [<-|[]]. reflexivity.
Defined.

(** A folder [account/] in lower case gets the button of the account
    module, and the profile is looked up under [Account/] all the same. *)
Lemma navigation_offers_witness :
  In Main.AccountModule (Main.navigation Sample.lowercase_archive) /\
  Account.parseUser Sample.parse Sample.lowercase_archive
  = Throw (FileNotFound "Account/user.json").
Proof.
  split; [|reflexivity].
  apply (proj2 (proj1 (navigation_offers Sample.lowercase_archive))).
  exists (Sample.folder_entry "account/").
  split; [left; reflexivity|]. split; reflexivity.
Defined.

End FurtherSamples.
